(** * Route optimizer of ecormart-beta: a shallow embedding of
      [route_optimizer.py] (class [RouteOptimizer]) and the properties of
      its geodesic distance, greedy sequencer, metrics, multi-truck
      allocation and environmental estimate.

    Conventions of the embedding.
    - Python floats are idealised as the real numbers of the Standard
      Library: [math.sin], [math.cos], [math.asin], [math.sqrt] are
      [sin], [cos], [asin], [sqrt]; [math.radians x] is [x * PI / 180].
      Binary64 rounding is not modelled; the explicit [round] calls of
      the source are.
    - The dictionaries describing bins are mutable Python objects shared
      between the caller's list and the optimizer's results.  They live
      in a heap indexed by object identity ([loc]); lists hold
      references.
    - [random.uniform(1.2, 1.3)] is a value handed to the function that
      draws it; [datetime.now()] is a clock reading handed in the same
      way.
    - A Python exception is a [Raise] result.
    - A bin dictionary always has the key ['coordinates'], a list of two
      floats.  Over the real numbers [math.sqrt] and [math.asin] are
      always applied inside their domains (lemma [haversine_a_range]);
      the [ValueError] that binary64 rounding can cause for latitudes
      beyond 90 degrees and the [KeyError] of a record without
      coordinates are outside the embedding. *)

From Stdlib Require Import String DecimalString.
From Stdlib Require Import Reals Lra Lia ZArith Bool PeanoNat List Permutation.
Import ListNotations.

Open Scope R_scope.

(** ** Numbers *)

(** [math.radians]. *)
Definition radians (x : R) : R := x * PI / 180.

(** [round(x)] with a single argument: nearest integer, ties to the even
    one; the result is a Python [int]. *)
Definition py_round (x : R) : Z :=
  let f := Int_part x in
  let d := x - IZR f in
  if Rlt_dec d (1 / 2) then f
  else if Rlt_dec (1 / 2) d then (f + 1)%Z
  else if Z.even f then f else (f + 1)%Z.

(** [round(x, 1)]: one decimal place. *)
Definition py_round1 (x : R) : R := IZR (py_round (x * 10)) / 10.

(** [round(x, 2)]: two decimal places. *)
Definition py_round2 (x : R) : R := IZR (py_round (x * 100)) / 100.

(** ** Exceptions *)

Inductive exn : Set :=
| ZeroDivisionError
| KeyError.

Inductive result (A : Type) : Type :=
| Ok (a : A)
| Raise (e : exn).
Arguments Ok {A} a.
Arguments Raise {A} e.

(** Python's float division [x / y]. *)
Definition py_truediv (x y : R) : result R :=
  if Req_dec_T y 0 then Raise ZeroDivisionError else Ok (x / y).

(** ** Coordinates and the haversine distance *)

(** A coordinate list [[lat, lon]] in decimal degrees. *)
Definition coord : Type := (R * R)%type.

(** The argument of [math.sqrt] in [calculate_distance]. *)
Definition haversine_a (coord1 coord2 : coord) : R :=
  let lat1 := radians (fst coord1) in
  let lon1 := radians (snd coord1) in
  let lat2 := radians (fst coord2) in
  let lon2 := radians (snd coord2) in
  let dlat := lat2 - lat1 in
  let dlon := lon2 - lon1 in
  (sin (dlat / 2)) ^ 2 + cos lat1 * cos lat2 * (sin (dlon / 2)) ^ 2.

(** [RouteOptimizer.calculate_distance]. *)
Definition calculate_distance (coord1 coord2 : coord) : R :=
  let a := haversine_a coord1 coord2 in
  let c := 2 * asin (sqrt a) in
  let r := 6371 in
  c * r.

(** ** Bins and the heap *)

(** Identity of a Python object. *)
Abbreviation loc := nat (only parsing).

(** The dictionary of a bin, with the keys [Database.get_all_bins] gives
    it and the three keys [calculate_optimal_route] writes; a key that is
    absent is [None]. *)
Module Bin.
Record t : Type := mk {
  id : string;
  name : string;
  location : string;
  coordinates : coord;
  fill_level : Z;
  battery_level : Z;
  waste_type : string;
  status : string;
  last_collection : string;
  estimated_time : option Z;
  sequence : option Z;
  arrival_time : option R
}.
End Bin.

(** Equality of two bin dictionaries, Python's [==] on their contents. *)
Definition bin_eq_dec (a b : Bin.t) : {a = b} + {a <> b}.
Proof.
  decide equality;
    repeat (apply string_dec || apply Z.eq_dec || apply Req_dec_T
            || decide equality).
Defined.

Definition heap : Type := loc -> Bin.t.

(** The heap after the object at [l] became [b]. *)
Definition heap_set (h : heap) (l : loc) (b : Bin.t) : heap :=
  fun l' => if Nat.eqb l' l then b else h l'.

(** [x == y] on two references to dictionaries: the same object, or
    equal contents. *)
Definition py_eq (h : heap) (x y : loc) : bool :=
  Nat.eqb x y || (if bin_eq_dec (h x) (h y) then true else false).

(** [l.remove(x)]: drops the first item equal to [x].  (Python raises
    [ValueError] when there is none; the optimizer only removes an item
    it has just taken from the list, see [min_by_In].) *)
Fixpoint list_remove (h : heap) (x : loc) (l : list loc) : list loc :=
  match l with
  | [] => []
  | y :: l' => if py_eq h y x then l' else y :: list_remove h x l'
  end.

(** [min(best :: xs, key=key)]: the running minimum is replaced only by
    an item whose key is strictly smaller. *)
Fixpoint min_by {A : Type} (key : A -> R) (best : A) (xs : list A) : A :=
  match xs with
  | [] => best
  | x :: xs' =>
      if Rlt_dec (key x) (key best) then min_by key x xs'
      else min_by key best xs'
  end.

(** [l[a:b]] and [l[a:]] for [0 <= a <= b]. *)
Definition slice {A : Type} (l : list A) (a b : nat) : list A :=
  firstn (b - a) (skipn a l).
Definition slice_from {A : Type} (l : list A) (a : nat) : list A :=
  skipn a l.

(** [sum(l)] on floats. *)
Definition py_sum (l : list R) : R := fold_left Rplus l 0.

(** [str(n)] for a natural number. *)
Definition str_of_nat (n : nat) : string :=
  NilEmpty.string_of_uint (Nat.to_uint n).

(** ** The optimizer: [RouteOptimizer.__init__] *)

Definition base_location : coord := (-23.5505, -46.6333).
Definition avg_speed_kmh : R := 25.
Definition service_time_minutes : Z := 8.

(** ** [nearest_neighbor_algorithm] *)

(** The variables of the [while] loop. *)
Record nn_state : Type := mk_nn {
  current_location : coord;
  unvisited_bins : list loc;
  route : list loc
}.

(** The key of the [min] call. *)
Definition nn_key (h : heap) (current : coord) (bin_item : loc) : R :=
  calculate_distance current (Bin.coordinates (h bin_item)).

(** One iteration of the loop body. *)
Definition nn_step (h : heap) (s : nn_state) : nn_state :=
  match unvisited_bins s with
  | [] => s
  | b0 :: rest =>
      let nearest_bin := min_by (nn_key h (current_location s)) b0 rest in
      {| current_location := Bin.coordinates (h nearest_bin);
         unvisited_bins := list_remove h nearest_bin (unvisited_bins s);
         route := route s ++ [nearest_bin] |}
  end.

(** [while unvisited_bins: ...], at most [fuel] iterations. *)
Fixpoint nn_while (fuel : nat) (h : heap) (s : nn_state) : nn_state :=
  match fuel with
  | O => s
  | S fuel' =>
      match unvisited_bins s with
      | [] => s
      | _ :: _ => nn_while fuel' h (nn_step h s)
      end
  end.

Definition nn_init (bins : list loc) : nn_state :=
  {| current_location := base_location;
     unvisited_bins := bins;
     route := [] |}.

Definition nearest_neighbor_algorithm (h : heap) (bins : list loc)
  : list loc :=
  match bins with
  | [] => []
  | _ :: _ => route (nn_while (length bins) h (nn_init bins))
  end.

(** ** Route dictionaries *)

(** The dictionary returned by the route functions; the keys that only
    some paths set are options. *)
Module Route.
Record t : Type := mk {
  total_distance : R;
  estimated_time : Z;
  fuel_savings : R;
  coordinates : list coord;
  stops : list loc;
  travel_time : option Z;
  service_time : option Z;
  route_generated_at : option R;
  number_of_stops : option Z;
  optimization_algorithm : option string;
  route_efficiency_score : option R;
  truck_id : option string;
  truck_name : option string;
  driver : option string
}.
End Route.

(** The dictionary for an empty route. *)
Definition empty_route : Route.t :=
  {| Route.total_distance := 0;
     Route.estimated_time := 0;
     Route.fuel_savings := 0;
     Route.coordinates := [];
     Route.stops := [];
     Route.travel_time := None;
     Route.service_time := None;
     Route.route_generated_at := None;
     Route.number_of_stops := None;
     Route.optimization_algorithm := None;
     Route.route_efficiency_score := None;
     Route.truck_id := None;
     Route.truck_name := None;
     Route.driver := None |}.

(** ** [calculate_route_metrics] *)

(** The variables of the [for] loop over the stops. *)
Record leg_state : Type := mk_leg {
  leg_total : R;
  leg_coordinates : list coord;
  leg_current : coord
}.

Definition leg_step (h : heap) (s : leg_state) (bin_item : loc) : leg_state :=
  let bin_coords := Bin.coordinates (h bin_item) in
  let distance := calculate_distance (leg_current s) bin_coords in
  {| leg_total := leg_total s + distance;
     leg_coordinates := leg_coordinates s ++ [bin_coords];
     leg_current := bin_coords |}.

Definition leg_init : leg_state :=
  {| leg_total := 0;
     leg_coordinates := [base_location];
     leg_current := base_location |}.

(** [u] is the value of [random.uniform(1.2, 1.3)]. *)
Definition calculate_route_metrics (u : R) (h : heap) (route : list loc)
  : result Route.t :=
  match route with
  | [] => Ok empty_route
  | _ :: _ =>
      let s := fold_left (leg_step h) route leg_init in
      let return_distance := calculate_distance (leg_current s) base_location in
      let total_distance := leg_total s + return_distance in
      let coordinates := leg_coordinates s ++ [base_location] in
      let travel_time := (total_distance / avg_speed_kmh) * 60 in
      let service_time := (Z.of_nat (length route) * service_time_minutes)%Z in
      let total_time := travel_time + IZR service_time in
      let non_optimized_distance := total_distance * u in
      match py_truediv (non_optimized_distance - total_distance)
                       non_optimized_distance with
      | Raise e => Raise e
      | Ok q =>
          let fuel_savings := q * 100 in
          Ok {| Route.total_distance := py_round1 total_distance;
                Route.estimated_time := py_round total_time;
                Route.fuel_savings := py_round1 fuel_savings;
                Route.coordinates := coordinates;
                Route.stops := route;
                Route.travel_time := Some (py_round travel_time);
                Route.service_time := Some service_time;
                Route.route_generated_at := None;
                Route.number_of_stops := None;
                Route.optimization_algorithm := None;
                Route.route_efficiency_score := None;
                Route.truck_id := None;
                Route.truck_name := None;
                Route.driver := None |}
      end
  end.

(** ** [calculate_optimal_route] *)

(** The body of the loop over [enumerate(route_metrics['stops'])]: the
    dictionary of the stop receives three keys.  [now] is the reading of
    [datetime.now()], [travel_time] is [route_metrics['travel_time']] and
    [n] is [len(route_metrics['stops'])]. *)
Definition annotate_stop (now : R) (travel_time : Z) (n : nat)
  (h : heap) (i : nat) (stop : loc) : heap :=
  let minutes :=
    py_sum (repeat (IZR service_time_minutes) i
            ++ [IZR travel_time * (INR i / INR n)]) in
  let b := h stop in
  heap_set h stop
    {| Bin.id := Bin.id b;
       Bin.name := Bin.name b;
       Bin.location := Bin.location b;
       Bin.coordinates := Bin.coordinates b;
       Bin.fill_level := Bin.fill_level b;
       Bin.battery_level := Bin.battery_level b;
       Bin.waste_type := Bin.waste_type b;
       Bin.status := Bin.status b;
       Bin.last_collection := Bin.last_collection b;
       Bin.estimated_time := Some service_time_minutes;
       Bin.sequence := Some (Z.of_nat i + 1)%Z;
       Bin.arrival_time := Some (now + minutes) |}.

(** The loop itself, from index [i] on. *)
Fixpoint annotate_stops (now : R) (travel_time : Z) (n : nat)
  (h : heap) (i : nat) (stops : list loc) : heap :=
  match stops with
  | [] => h
  | stop :: stops' =>
      annotate_stops now travel_time n
        (annotate_stop now travel_time n h i stop) (S i) stops'
  end.

(** [route_metrics.update({...})] with the route summary. *)
Definition add_summary (now : R) (number : nat) (m : Route.t) : Route.t :=
  {| Route.total_distance := Route.total_distance m;
     Route.estimated_time := Route.estimated_time m;
     Route.fuel_savings := Route.fuel_savings m;
     Route.coordinates := Route.coordinates m;
     Route.stops := Route.stops m;
     Route.travel_time := Route.travel_time m;
     Route.service_time := Route.service_time m;
     Route.route_generated_at := Some now;
     Route.number_of_stops := Some (Z.of_nat number);
     Route.optimization_algorithm := Some "nearest_neighbor"%string;
     Route.route_efficiency_score :=
       Some (Rmin 95 (70 + Route.fuel_savings m));
     Route.truck_id := Route.truck_id m;
     Route.truck_name := Route.truck_name m;
     Route.driver := Route.driver m |}.

(** The result is the heap after the call and the value returned or the
    exception raised. *)
Definition calculate_optimal_route (now u : R) (h : heap)
  (bins_for_collection : list loc) : heap * result Route.t :=
  match bins_for_collection with
  | [] => (h, Ok empty_route)
  | _ :: _ =>
      let optimized_route := nearest_neighbor_algorithm h bins_for_collection in
      match calculate_route_metrics u h optimized_route with
      | Raise e => (h, Raise e)
      | Ok route_metrics =>
          match Route.travel_time route_metrics with
          | None =>
              match Route.stops route_metrics with
              | [] => (h, Ok (add_summary now (length bins_for_collection)
                                route_metrics))
              | _ :: _ => (h, Raise KeyError)
              end
          | Some travel_time =>
              let stops := Route.stops route_metrics in
              let h' := annotate_stops now travel_time (length stops) h 0 stops in
              (h', Ok (add_summary now (length bins_for_collection)
                         route_metrics))
          end
      end
  end.

(** ** [optimize_multi_truck_routes] *)

(** [route_metrics.update({...})] with the truck's identity. *)
Definition add_truck (truck_id : nat) (m : Route.t) : Route.t :=
  {| Route.total_distance := Route.total_distance m;
     Route.estimated_time := Route.estimated_time m;
     Route.fuel_savings := Route.fuel_savings m;
     Route.coordinates := Route.coordinates m;
     Route.stops := Route.stops m;
     Route.travel_time := Route.travel_time m;
     Route.service_time := Route.service_time m;
     Route.route_generated_at := Route.route_generated_at m;
     Route.number_of_stops := Route.number_of_stops m;
     Route.optimization_algorithm := Route.optimization_algorithm m;
     Route.route_efficiency_score := Route.route_efficiency_score m;
     Route.truck_id := Some ("truck_" ++ str_of_nat (truck_id + 1))%string;
     Route.truck_name := Some ("Caminhão " ++ str_of_nat (truck_id + 1))%string;
     Route.driver := Some ("Motorista " ++ str_of_nat (truck_id + 1))%string |}.

(** The bins of one truck. *)
Definition truck_bins_of (bins_for_collection : list loc)
  (num_trucks bins_per_truck truck_id : nat) : list loc :=
  let start_idx := (truck_id * bins_per_truck)%nat in
  if Nat.eqb truck_id (num_trucks - 1)
  then slice_from bins_for_collection start_idx
  else slice bins_for_collection start_idx (start_idx + bins_per_truck).

(** The loop over [range(num_trucks)], from the truck identifiers [ids]
    on.  [us k] is the value of the [k]-th call of [random.uniform]; one
    call is made for each route appended. *)
Fixpoint truck_loop (now : R) (us : nat -> R)
  (bins_for_collection : list loc) (num_trucks bins_per_truck : nat)
  (ids : list nat) (h : heap) (truck_routes : list Route.t)
  : heap * result (list Route.t) :=
  match ids with
  | [] => (h, Ok truck_routes)
  | truck_id :: ids' =>
      let truck_bins :=
        truck_bins_of bins_for_collection num_trucks bins_per_truck truck_id in
      match truck_bins with
      | [] =>
          truck_loop now us bins_for_collection num_trucks bins_per_truck
            ids' h truck_routes
      | _ :: _ =>
          match calculate_optimal_route now (us (length truck_routes)) h
                  truck_bins with
          | (h', Raise e) => (h', Raise e)
          | (h', Ok route_metrics) =>
              truck_loop now us bins_for_collection num_trucks bins_per_truck
                ids' h' (truck_routes ++ [add_truck truck_id route_metrics])
          end
      end
  end.

Definition optimize_multi_truck_routes (now : R) (us : nat -> R) (h : heap)
  (bins_for_collection : list loc) (num_trucks : Z)
  : heap * result (list Route.t) :=
  match bins_for_collection with
  | [] => (h, Ok [])
  | _ :: _ =>
      if (num_trucks <=? 0)%Z then (h, Ok [])
      else
        let bins_per_truck :=
          Z.to_nat (Z.of_nat (length bins_for_collection) / num_trucks) in
        truck_loop now us bins_for_collection (Z.to_nat num_trucks)
          bins_per_truck (seq 0 (Z.to_nat num_trucks)) h []
  end.

(** ** [calculate_environmental_impact] *)

Record impact : Type := mk_impact {
  fuel_consumed_liters : R;
  fuel_saved_liters : R;
  co2_emitted_kg : R;
  co2_saved_kg : R;
  environmental_score : R
}.

Definition calculate_environmental_impact (route_metrics : Route.t) : impact :=
  let total_distance := Route.total_distance route_metrics in
  let fuel_savings_percent := Route.fuel_savings route_metrics in
  let fuel_consumption_per_km := 0.35 in
  let co2_per_liter := 2.7 in
  let fuel_consumed := total_distance * fuel_consumption_per_km in
  let fuel_saved := fuel_consumed * (fuel_savings_percent / 100) in
  let co2_emitted := fuel_consumed * co2_per_liter in
  let co2_saved := fuel_saved * co2_per_liter in
  {| fuel_consumed_liters := py_round2 fuel_consumed;
     fuel_saved_liters := py_round2 fuel_saved;
     co2_emitted_kg := py_round2 co2_emitted;
     co2_saved_kg := py_round2 co2_saved;
     environmental_score := Rmin 100 (50 + fuel_savings_percent * 2) |}.

(** ** [get_alternative_routes] *)

(** An alternative: [{'route_id': ..., 'description': ..., **metrics}]. *)
Module Alt.
Record t : Type := mk {
  route_id : string;
  description : string;
  metrics : Route.t
}.
End Alt.

(** The loop over [range(num_alternatives)], from the indices [ids] on.
    [shuffle i l] is the order [random.shuffle] leaves the copy of [l] in
    at iteration [i], and [us i] the value of [random.uniform] there. *)
Fixpoint alternatives_loop (shuffle : nat -> list loc -> list loc)
  (us : nat -> R) (h : heap) (bins_for_collection : list loc)
  (ids : list nat) (alternatives : list Alt.t) : result (list Alt.t) :=
  match ids with
  | [] => Ok alternatives
  | i :: ids' =>
      if Nat.ltb 1 (length bins_for_collection) then
        let shuffled_bins := shuffle i bins_for_collection in
        let route := nearest_neighbor_algorithm h shuffled_bins in
        match calculate_route_metrics (us i) h route with
        | Raise e => Raise e
        | Ok metrics =>
            alternatives_loop shuffle us h bins_for_collection ids'
              (alternatives
               ++ [{| Alt.route_id := ("alt_" ++ str_of_nat (i + 1))%string;
                      Alt.description :=
                        ("Rota Alternativa " ++ str_of_nat (i + 1))%string;
                      Alt.metrics := metrics |}])
        end
      else
        alternatives_loop shuffle us h bins_for_collection ids' alternatives
  end.

Definition get_alternative_routes (shuffle : nat -> list loc -> list loc)
  (us : nat -> R) (h : heap) (bins_for_collection : list loc)
  (num_alternatives : Z) : result (list Alt.t) :=
  alternatives_loop shuffle us h bins_for_collection
    (seq 0 (Z.to_nat num_alternatives)) [].

(** ** The callers: the route buttons of the two dashboards *)

(** [[b for b in bins_data if b['fill_level'] >= 80]]. *)
Definition bins_needing_collection (h : heap) (bins_data : list loc)
  : list loc :=
  filter (fun b => (80 <=? Bin.fill_level (h b))%Z) bins_data.

(** What the handler of the button computes: the heap afterwards and the
    route it stores in [st.session_state['current_route']], [None] when
    it stores nothing. *)
Definition generate_route (now u : R) (h : heap) (bins_data : list loc)
  : heap * result (option Route.t) :=
  let bins_for_collection := bins_needing_collection h bins_data in
  match bins_for_collection with
  | [] => (h, Ok None)
  | _ :: _ =>
      match calculate_optimal_route now u h bins_for_collection with
      | (h', Ok optimized_route) => (h', Ok (Some optimized_route))
      | (h', Raise e) => (h', Raise e)
      end
  end.

(** ** Notions used in the statements *)

(** [k] iterations of the sequencer's loop body. *)
Fixpoint nn_iter (k : nat) (h : heap) (s : nn_state) : nn_state :=
  match k with
  | O => s
  | S k' => nn_iter k' h (nn_step h s)
  end.

(** [l1] is [l2] with some items dropped, the others in the same order. *)
Inductive subseq {A : Type} : list A -> list A -> Prop :=
| subseq_nil : subseq [] []
| subseq_skip : forall x l1 l2, subseq l1 l2 -> subseq l1 (x :: l2)
| subseq_take : forall x l1 l2, subseq l1 l2 -> subseq (x :: l1) (x :: l2).

(** Length of the path [from -> p1 -> ... -> pn]. *)
Fixpoint path_length (from : coord) (pts : list coord) : R :=
  match pts with
  | [] => 0
  | p :: pts' => calculate_distance from p + path_length p pts'
  end.

(** Length of the closed walk depot -> stops -> depot. *)
Definition closed_walk_length (h : heap) (route : list loc) : R :=
  path_length base_location
    (map (fun b => Bin.coordinates (h b)) route ++ [base_location]).

(** The keys of a bin dictionary that come from the caller. *)
Definition same_payload (a b : Bin.t) : Prop :=
  Bin.id a = Bin.id b /\ Bin.name a = Bin.name b /\
  Bin.location a = Bin.location b /\ Bin.coordinates a = Bin.coordinates b /\
  Bin.fill_level a = Bin.fill_level b /\
  Bin.battery_level a = Bin.battery_level b /\
  Bin.waste_type a = Bin.waste_type b /\ Bin.status a = Bin.status b /\
  Bin.last_collection a = Bin.last_collection b.

(** The contiguous slices of [bins] for [n] trucks of [k] bins each, the
    last one taking the rest. *)
Definition truck_slices (bins : list loc) (n k : nat) : list (list loc) :=
  map (truck_bins_of bins n k) (seq 0 n).

(** The trucks among [ids] that receive at least one bin. *)
Definition nonempty_trucks (bins : list loc) (n k : nat) (ids : list nat)
  : list nat :=
  filter (fun i => match truck_bins_of bins n k i with
                   | [] => false
                   | _ :: _ => true
                   end) ids.

(** The route [m] is the plan of truck [i]: its stops are the truck's
    slice in some order, and it carries the truck's identifier. *)
Definition plan_of_truck (bins : list loc) (n k : nat) (m : Route.t)
  (i : nat) : Prop :=
  Permutation (Route.stops m) (truck_bins_of bins n k i) /\
  Route.truck_id m = Some ("truck_" ++ str_of_nat (i + 1))%string.

(** No bin stands at distance zero from the depot. *)
Definition off_depot (h : heap) (bins : list loc) : Prop :=
  forall b, In b bins ->
    calculate_distance base_location (Bin.coordinates (h b)) <> 0.

(** The two scores of a plan are within their ranges. *)
Definition scores_in_range (p : Route.t) : Prop :=
  0 <= environmental_score (calculate_environmental_impact p) <= 100 /\
  exists s, Route.route_efficiency_score p = Some s /\ 0 <= s <= 95.

(** A point that is not a pole, with a longitude in range. *)
Definition regular_geopoint (p : coord) : Prop :=
  -90 < fst p < 90 /\ -180 <= snd p <= 180.

(** The bins of a list all stand on the depot. *)
Definition all_on_depot (h : heap) (bins : list loc) : Prop :=
  forall b, In b bins -> Bin.coordinates (h b) = base_location.

(** Two heaps hold the same coordinates. *)
Definition same_coordinates (h h' : heap) : Prop :=
  forall l, Bin.coordinates (h l) = Bin.coordinates (h' l).

(** ** Sample data *)

(** A bin dictionary as [Database.get_all_bins] builds it. *)
Definition sample_bin (id name location : string) (coordinates : coord)
  (fill_level battery_level : Z) (waste_type status last_collection : string)
  : Bin.t :=
  {| Bin.id := id; Bin.name := name; Bin.location := location;
     Bin.coordinates := coordinates;
     Bin.fill_level := fill_level; Bin.battery_level := battery_level;
     Bin.waste_type := waste_type; Bin.status := status;
     Bin.last_collection := last_collection;
     Bin.estimated_time := None; Bin.sequence := None;
     Bin.arrival_time := None |}.

(** Two bins of the sample data of [Database._insert_sample_data]; the
    first one stands exactly at the depot. *)
Definition bin_001 : Bin.t :=
  sample_bin "BIN_001" "Lixeira Condomínio A" "Rua das Flores, 123"
    (-23.5505, -46.6333) 85 90 "comum" "active" "2024-10-05".
Definition bin_003 : Bin.t :=
  sample_bin "BIN_003" "Lixeira Orgânica C" "Rua Verde, 789"
    (-23.5425, -46.6123) 92 75 "organico" "active" "2024-10-04".

(** A bin one ten-thousandth of a degree north of the depot. *)
Definition bin_near : Bin.t :=
  sample_bin "BIN_100" "Lixeira Base" "Base"
    (-23.5504, -46.6333) 90 90 "comum" "active" "2024-10-05".

(** A heap with [bin_001] at 0, [bin_003] at 1 and [bin_near] elsewhere. *)
Definition sample_heap : heap :=
  fun l =>
    match l with
    | O => bin_001
    | S O => bin_003
    | _ => bin_near
    end.

(** A route dictionary with a distance of 12.5 km and fuel savings of
    20 percent. *)
Definition sample_route : Route.t :=
  {| Route.total_distance := 12.5;
     Route.estimated_time := 54;
     Route.fuel_savings := 20;
     Route.coordinates := [];
     Route.stops := [];
     Route.travel_time := Some 30%Z;
     Route.service_time := Some 24%Z;
     Route.route_generated_at := None;
     Route.number_of_stops := None;
     Route.optimization_algorithm := None;
     Route.route_efficiency_score := None;
     Route.truck_id := None;
     Route.truck_name := None;
     Route.driver := None |}.

(** The alternative [a] is the one of iteration [i] for the bins [bins]. *)
Definition alternative_of (bins : list loc) (a : Alt.t) (i : nat) : Prop :=
  Alt.route_id a = ("alt_" ++ str_of_nat (i + 1))%string /\
  Permutation (Route.stops (Alt.metrics a)) bins /\
  Route.route_efficiency_score (Alt.metrics a) = None.

(** ** Facts on rounding *)

Lemma Int_part_bounds (x : R) : IZR (Int_part x) <= x < IZR (Int_part x) + 1.
Proof.
  destruct (base_Int_part x) as [H1 H2]. lra.
Qed.

Lemma py_round_near (x : R) : -1 / 2 <= IZR (py_round x) - x <= 1 / 2.
Proof.
  unfold py_round. pose proof (Int_part_bounds x) as Hb.
  destruct (Rlt_dec (x - IZR (Int_part x)) (1 / 2)) as [Hlt | Hge].
  - lra.
  - destruct (Rlt_dec (1 / 2) (x - IZR (Int_part x))) as [Hgt | Hle].
    + rewrite plus_IZR. lra.
    + destruct (Z.even (Int_part x)).
      * lra.
      * rewrite plus_IZR. lra.
Qed.

Lemma py_round_nonneg (x : R) : 0 <= x -> (0 <= py_round x)%Z.
Proof.
  intros Hx. pose proof (py_round_near x) as Hn.
  apply le_IZR. apply Rnot_lt_le. intros Hneg.
  assert (Hz : (py_round x <= -1)%Z).
  { assert (py_round x < 0)%Z by (apply lt_IZR; exact Hneg). lia. }
  apply IZR_le in Hz. lra.
Qed.

Lemma py_round_small (x : R) : 0 <= x < 1 / 2 -> py_round x = 0%Z.
Proof.
  intros Hx. unfold py_round.
  assert (Hi : Int_part x = 0%Z).
  { symmetry. apply Int_part_spec. simpl. lra. }
  rewrite Hi. simpl IZR.
  destruct (Rlt_dec (x - 0) (1 / 2)); [reflexivity | lra].
Qed.

Lemma py_round1_nonneg (x : R) : 0 <= x -> 0 <= py_round1 x.
Proof.
  intros Hx. unfold py_round1.
  assert (0 <= IZR (py_round (x * 10))).
  { apply IZR_le. apply py_round_nonneg. lra. }
  lra.
Qed.

(** ** Facts on the haversine formula *)

Lemma sin_half_sq (x : R) : (sin (x / 2)) ^ 2 = (1 - cos x) / 2.
Proof.
  pose proof (cos_2a_sin (x / 2)) as H.
  replace (2 * (x / 2)) with x in H by lra.
  rewrite H. lra.
Qed.

(** The square root and the arcsine of [calculate_distance] are always
    taken inside their domains: [math.sqrt] and [math.asin] never raise
    [ValueError]. *)
Lemma haversine_a_range (p q : coord) : 0 <= haversine_a p q <= 1.
Proof.
  unfold haversine_a.
  set (lat1 := radians (fst p)). set (lat2 := radians (fst q)).
  set (dlon := radians (snd q) - radians (snd p)).
  rewrite (sin_half_sq (lat2 - lat1)), (sin_half_sq dlon).
  pose proof (COS_bound dlon) as Hd.
  pose proof (COS_bound (lat2 - lat1)) as Hm.
  pose proof (COS_bound (lat1 + lat2)) as Hs.
  rewrite cos_minus in Hm |- *. rewrite cos_plus in Hs.
  assert (Hk : 0 <= (1 - cos dlon) / 2 <= 1) by lra.
  set (k := (1 - cos dlon) / 2) in *.
  set (P := cos lat1 * cos lat2) in *.
  set (T := sin lat1 * sin lat2) in *.
  replace (cos lat2 * cos lat1) with P in * by (unfold P; ring).
  replace (sin lat2 * sin lat1) with T in * by (unfold T; ring).
  clearbody k P T. clear Hd.
  destruct (Rle_dec 0 P) as [Hpos | Hneg].
  - assert (0 <= P * k <= P) by nra. lra.
  - assert (P <= P * k <= 0) by nra. lra.
Qed.

Lemma haversine_a_sym (p q : coord) : haversine_a p q = haversine_a q p.
Proof.
  unfold haversine_a.
  rewrite !sin_half_sq.
  replace (radians (fst p) - radians (fst q))
    with (- (radians (fst q) - radians (fst p))) by lra.
  replace (radians (snd p) - radians (snd q))
    with (- (radians (snd q) - radians (snd p))) by lra.
  rewrite !cos_neg. lra.
Qed.

Lemma haversine_a_refl (p : coord) : haversine_a p p = 0.
Proof.
  unfold haversine_a.
  replace ((radians (fst p) - radians (fst p)) / 2) with 0 by lra.
  replace ((radians (snd p) - radians (snd p)) / 2) with 0 by lra.
  rewrite sin_0. lra.
Qed.

Lemma asin_nonneg (x : R) : 0 <= x -> 0 <= asin x.
Proof.
  intros Hx.
  destruct (Rle_dec 1 x) as [H1 | H1].
  - unfold asin. destruct (Rle_dec x (-1)); [lra |].
    destruct (Rle_dec 1 x); [| lra].
    pose proof PI_RGT_0. lra.
  - destruct (Req_dec_T x 0) as [H0 | H0].
    + subst x. rewrite asin_0. lra.
    + rewrite asin_atan by lra.
      rewrite <- atan_0. apply Rlt_le. apply atan_increasing.
      apply Rdiv_lt_0_compat; [lra |].
      apply sqrt_lt_R0. unfold Rsqr. nra.
Qed.

Lemma calculate_distance_sym (p q : coord) :
  calculate_distance p q = calculate_distance q p.
Proof.
  unfold calculate_distance. rewrite (haversine_a_sym p q). reflexivity.
Qed.

Lemma calculate_distance_refl (p : coord) : calculate_distance p p = 0.
Proof.
  unfold calculate_distance. rewrite haversine_a_refl, sqrt_0, asin_0. lra.
Qed.

Lemma calculate_distance_nonneg (p q : coord) : 0 <= calculate_distance p q.
Proof.
  unfold calculate_distance.
  pose proof (asin_nonneg (sqrt (haversine_a p q)) (sqrt_pos _)). lra.
Qed.

(** ** Facts on [min] and [remove] *)

Section MinBy.

Context {A : Type} (key : A -> R).

Lemma min_by_scan (xs : list A) :
  forall (pre : list A) (best : A) (mid : list A),
    (forall x, In x pre -> key best < key x) ->
    (forall x, In x mid -> key best <= key x) ->
    exists pre' post',
      pre ++ best :: mid ++ xs = pre' ++ min_by key best xs :: post' /\
      (forall x, In x pre' -> key (min_by key best xs) < key x) /\
      (forall x, In x post' -> key (min_by key best xs) <= key x).
Proof.
  induction xs as [| x xs IH]; intros pre best mid Hpre Hmid; simpl.
  - exists pre, mid. rewrite app_nil_r. auto.
  - destruct (Rlt_dec (key x) (key best)) as [Hlt | Hge].
    + destruct (IH (pre ++ best :: mid) x []) as (pre' & post' & E & H1 & H2).
      * intros y Hy. apply in_app_or in Hy. destruct Hy as [Hy | [Hy | Hy]].
        -- specialize (Hpre y Hy). lra.
        -- subst y. exact Hlt.
        -- specialize (Hmid y Hy). lra.
      * intros y [].
      * exists pre', post'. split; [| auto].
        rewrite <- E. simpl. rewrite <- app_assoc. reflexivity.
    + destruct (IH pre best (mid ++ [x])) as (pre' & post' & E & H1 & H2).
      * exact Hpre.
      * intros y Hy. apply in_app_or in Hy. destruct Hy as [Hy | [Hy | []]].
        -- auto.
        -- subst y. lra.
      * exists pre', post'. split; [| auto].
        rewrite <- E. rewrite <- app_assoc. reflexivity.
Qed.

(** [min] returns the first item of the list whose key is minimal. *)
Lemma min_by_first (b0 : A) (rest : list A) :
  exists pre post,
    b0 :: rest = pre ++ min_by key b0 rest :: post /\
    (forall x, In x pre -> key (min_by key b0 rest) < key x) /\
    (forall x, In x post -> key (min_by key b0 rest) <= key x).
Proof.
  destruct (min_by_scan rest [] b0 []) as (pre & post & E & H1 & H2).
  - intros x [].
  - intros x [].
  - exists pre, post. auto.
Qed.

Lemma min_by_In (b0 : A) (rest : list A) :
  In (min_by key b0 rest) (b0 :: rest).
Proof.
  destruct (min_by_first b0 rest) as (pre & post & E & _).
  rewrite E. apply in_or_app. right. left. reflexivity.
Qed.

End MinBy.

Lemma py_eq_refl (h : heap) (x : loc) : py_eq h x x = true.
Proof.
  unfold py_eq. rewrite Nat.eqb_refl. reflexivity.
Qed.

(** Two references that compare equal have the same key. *)
Lemma py_eq_key (h : heap) (cur : coord) (x y : loc) :
  py_eq h y x = true -> nn_key h cur y = nn_key h cur x.
Proof.
  unfold py_eq, nn_key. intros H. apply orb_true_iff in H.
  destruct H as [H | H].
  - apply Nat.eqb_eq in H. subst y. reflexivity.
  - destruct (bin_eq_dec (h y) (h x)) as [E | E]; [| discriminate].
    rewrite E. reflexivity.
Qed.

Lemma list_remove_first (h : heap) (x : loc) (pre post : list loc) :
  (forall y, In y pre -> py_eq h y x = false) ->
  list_remove h x (pre ++ x :: post) = pre ++ post.
Proof.
  induction pre as [| y pre IH]; intros Hpre; simpl.
  - rewrite py_eq_refl. reflexivity.
  - rewrite (Hpre y (or_introl eq_refl)). f_equal.
    apply IH. intros z Hz. apply Hpre. right. exact Hz.
Qed.

(** ** Facts on the sequencer's loop *)

(** One iteration takes the first nearest bin out of the pool. *)
Lemma nn_step_spec (h : heap) (s : nn_state) :
  unvisited_bins s <> [] ->
  exists pre nb post,
    unvisited_bins s = pre ++ nb :: post /\
    (forall x, In x pre ->
       nn_key h (current_location s) nb < nn_key h (current_location s) x) /\
    (forall x, In x post ->
       nn_key h (current_location s) nb <= nn_key h (current_location s) x) /\
    nn_step h s =
      {| current_location := Bin.coordinates (h nb);
         unvisited_bins := pre ++ post;
         route := route s ++ [nb] |}.
Proof.
  intros Hne. unfold nn_step.
  destruct (unvisited_bins s) as [| b0 rest] eqn:Eu; [congruence |].
  destruct (min_by_first (nn_key h (current_location s)) b0 rest)
    as (pre & post & E & H1 & H2).
  cbv zeta. set (m := min_by (nn_key h (current_location s)) b0 rest) in *.
  exists pre, m, post.
  repeat split; auto.
  f_equal. rewrite E. apply list_remove_first.
  intros y Hy. destruct (py_eq h y m) eqn:Ey; [| reflexivity].
  apply (py_eq_key h (current_location s)) in Ey.
  specialize (H1 y Hy). lra.
Qed.

Lemma nn_step_empty (h : heap) (s : nn_state) :
  unvisited_bins s = [] -> nn_step h s = s.
Proof.
  intros E. unfold nn_step. rewrite E. reflexivity.
Qed.

Lemma nn_while_iter (h : heap) (fuel : nat) :
  forall s, nn_while fuel h s = nn_iter fuel h s.
Proof.
  induction fuel as [| fuel IH]; intros s; simpl.
  - reflexivity.
  - destruct (unvisited_bins s) eqn:E.
    + rewrite nn_step_empty by exact E. clear IH.
      induction fuel as [| fuel IH']; simpl.
      * reflexivity.
      * rewrite nn_step_empty by exact E. exact IH'.
    + apply IH.
Qed.

Lemma nn_iter_add (h : heap) (j k : nat) (s : nn_state) :
  nn_iter (j + k) h s = nn_iter k h (nn_iter j h s).
Proof.
  revert s. induction j as [| j IH]; intros s; simpl.
  - reflexivity.
  - apply IH.
Qed.

Lemma subseq_refl {A : Type} (l : list A) : subseq l l.
Proof.
  induction l; constructor; assumption.
Qed.

Lemma subseq_trans {A : Type} (l1 l2 l3 : list A) :
  subseq l1 l2 -> subseq l2 l3 -> subseq l1 l3.
Proof.
  intros H12 H23. revert l1 H12.
  induction H23 as [| x l2 l3 H IH | x l2 l3 H IH]; intros l1 H12.
  - exact H12.
  - constructor. apply IH. exact H12.
  - inversion H12; subst.
    + constructor. apply IH. assumption.
    + apply subseq_take. apply IH. assumption.
Qed.

Lemma subseq_drop {A : Type} (pre : list A) (x : A) (post : list A) :
  subseq (pre ++ post) (pre ++ x :: post).
Proof.
  induction pre as [| y pre IH]; simpl.
  - constructor. apply subseq_refl.
  - apply subseq_take. exact IH.
Qed.

(** The state after [k] iterations, [k] at most the number of bins. *)
Lemma nn_iter_inv (h : heap) (k : nat) :
  forall s,
    (k <= length (unvisited_bins s))%nat ->
    length (route (nn_iter k h s)) = (length (route s) + k)%nat /\
    length (unvisited_bins (nn_iter k h s))
      = (length (unvisited_bins s) - k)%nat /\
    subseq (unvisited_bins (nn_iter k h s)) (unvisited_bins s) /\
    Permutation (route (nn_iter k h s) ++ unvisited_bins (nn_iter k h s))
                (route s ++ unvisited_bins s) /\
    exists l, route (nn_iter k h s) = route s ++ l.
Proof.
  induction k as [| k IH]; intros s Hk; simpl.
  - rewrite Nat.add_0_r, Nat.sub_0_r. repeat split; auto.
    + apply subseq_refl.
    + exists []. rewrite app_nil_r. reflexivity.
  - assert (Hne : unvisited_bins s <> []).
    { intros E. rewrite E in Hk. simpl in Hk. lia. }
    destruct (nn_step_spec h s Hne) as (pre & nb & post & Eu & _ & _ & Es).
    specialize (IH (nn_step h s)).
    rewrite Es in IH |- *. simpl in IH.
    rewrite Eu in Hk |- *. rewrite length_app in Hk. simpl in Hk.
    destruct IH as (I1 & I2 & I3 & I4 & l & I5).
    { rewrite length_app. lia. }
    rewrite length_app in I1, I2. simpl in I1.
    repeat split.
    + lia.
    + rewrite length_app. simpl. lia.
    + eapply subseq_trans; [exact I3 | apply subseq_drop].
    + rewrite I4. rewrite <- app_assoc. apply Permutation_app_head.
      simpl. apply Permutation_middle.
    + exists (nb :: l). rewrite I5, <- app_assoc. reflexivity.
Qed.

(** The loop ends with an empty pool within [len(bins)] iterations. *)
Lemma nn_while_done (h : heap) (bins : list loc) :
  unvisited_bins (nn_while (length bins) h (nn_init bins)) = [].
Proof.
  rewrite nn_while_iter.
  destruct (nn_iter_inv h (length bins) (nn_init bins)) as (_ & H & _).
  - simpl. lia.
  - simpl in H. rewrite Nat.sub_diag in H.
    apply length_zero_iff_nil. exact H.
Qed.

Lemma nearest_neighbor_iter (h : heap) (bins : list loc) :
  nearest_neighbor_algorithm h bins =
  route (nn_iter (length bins) h (nn_init bins)).
Proof.
  unfold nearest_neighbor_algorithm. destruct bins as [| b bins].
  - reflexivity.
  - rewrite nn_while_iter. reflexivity.
Qed.

Lemma nearest_neighbor_perm (h : heap) (bins : list loc) :
  Permutation (nearest_neighbor_algorithm h bins) bins.
Proof.
  rewrite nearest_neighbor_iter.
  destruct (nn_iter_inv h (length bins) (nn_init bins))
    as (_ & H2 & _ & H4 & _).
  - simpl. lia.
  - simpl in H2, H4. rewrite Nat.sub_diag in H2.
    apply length_zero_iff_nil in H2. rewrite H2, app_nil_r in H4. exact H4.
Qed.

Lemma nearest_neighbor_nonempty (h : heap) (bins : list loc) :
  bins <> [] -> nearest_neighbor_algorithm h bins <> [].
Proof.
  intros Hne E. pose proof (nearest_neighbor_perm h bins) as P.
  rewrite E in P. apply Permutation_nil in P. congruence.
Qed.

(** ** The haversine distance: symmetry, zero on the diagonal, sign *)

(** Claim C8.  For all GeoPoints [a] and [b] (valid or not), the
    haversine distance is symmetric, is 0 from a point to itself and is
    never negative. *)
Theorem calculate_distance_metric_like (a b : coord) :
  calculate_distance a b = calculate_distance b a /\
  calculate_distance a a = 0 /\
  0 <= calculate_distance a b.
Proof.
  split; [apply calculate_distance_sym |].
  split; [apply calculate_distance_refl | apply calculate_distance_nonneg].
Qed.

(** ** The sequencer returns a permutation of its input *)

(** Claim C2.  For every list of collection points, the route returned
    by the sequencer is a permutation of the input (as a list of
    references to the caller's records): every point occurs in the
    output as often as in the input, and the two lists have the same
    length. *)
Theorem nearest_neighbor_permutation (h : heap) (bins : list loc) :
  Permutation (nearest_neighbor_algorithm h bins) bins /\
  length (nearest_neighbor_algorithm h bins) = length bins /\
  (forall x, In x (nearest_neighbor_algorithm h bins) <-> In x bins) /\
  (NoDup bins <-> NoDup (nearest_neighbor_algorithm h bins)).
Proof.
  pose proof (nearest_neighbor_perm h bins) as P.
  split; [exact P |].
  split; [apply Permutation_length; exact P |].
  split.
  - intros x. split; intros Hx.
    + eapply Permutation_in; [exact P | exact Hx].
    + eapply Permutation_in; [apply Permutation_sym; exact P | exact Hx].
  - split; intros Hn.
    + eapply Permutation_NoDup; [apply Permutation_sym; exact P | exact Hn].
    + eapply Permutation_NoDup; [exact P | exact Hn].
Qed.

(** ** The sequencer is greedy, ties going to the first bin *)

(** Claim C5.  For every non-empty input list and every step [k] of the
    sequencing loop: the current location is the depot before the first
    step; the pool of unvisited bins is the input with the bins already
    chosen dropped, in input order; the bin appended at step [k] (the
    [k]-th bin of the route returned) is in the pool, no bin of the
    pool is nearer to the current location, every bin before it in the
    pool is strictly farther; and the step removes exactly that bin and
    moves the current location to its coordinates. *)
Theorem nearest_neighbor_greedy (h : heap) (bins : list loc) (k : nat) :
  bins <> [] ->
  (k < length bins)%nat ->
  current_location (nn_iter 0 h (nn_init bins)) = base_location /\
  exists pre nb post,
    unvisited_bins (nn_iter k h (nn_init bins)) = pre ++ nb :: post /\
    subseq (unvisited_bins (nn_iter k h (nn_init bins))) bins /\
    (forall x, In x pre ->
       calculate_distance (current_location (nn_iter k h (nn_init bins)))
                          (Bin.coordinates (h nb))
       < calculate_distance (current_location (nn_iter k h (nn_init bins)))
                            (Bin.coordinates (h x))) /\
    (forall x, In x post ->
       calculate_distance (current_location (nn_iter k h (nn_init bins)))
                          (Bin.coordinates (h nb))
       <= calculate_distance (current_location (nn_iter k h (nn_init bins)))
                             (Bin.coordinates (h x))) /\
    nth_error (nearest_neighbor_algorithm h bins) k = Some nb /\
    nn_iter (S k) h (nn_init bins) =
      {| current_location := Bin.coordinates (h nb);
         unvisited_bins := pre ++ post;
         route := route (nn_iter k h (nn_init bins)) ++ [nb] |}.
Proof.
  intros _ Hk. split; [reflexivity |].
  set (s := nn_iter k h (nn_init bins)).
  destruct (nn_iter_inv h k (nn_init bins)) as (L1 & L2 & L3 & _ & _).
  { simpl. lia. }
  fold s in L1, L2, L3. simpl in L1, L2, L3.
  assert (Hne : unvisited_bins s <> []).
  { intros E. rewrite E in L2. simpl in L2. lia. }
  destruct (nn_step_spec h s Hne) as (pre & nb & post & Eu & H1 & H2 & Es).
  assert (Enext : nn_iter (S k) h (nn_init bins) = nn_step h s).
  { replace (S k) with (k + 1)%nat by lia. rewrite nn_iter_add. reflexivity. }
  exists pre, nb, post.
  split; [exact Eu |].
  split; [exact L3 |].
  split; [exact H1 |].
  split; [exact H2 |].
  split; [| rewrite Enext; exact Es].
  rewrite nearest_neighbor_iter.
  replace (length bins) with (S k + (length bins - S k))%nat by lia.
  rewrite nn_iter_add, Enext.
  destruct (nn_iter_inv h (length bins - S k) (nn_step h s))
    as (_ & _ & _ & _ & l & El).
  { rewrite Es. simpl. rewrite length_app.
    rewrite Eu, length_app in L2. simpl in L2. lia. }
  rewrite El, Es. simpl. rewrite <- app_assoc. simpl.
  rewrite nth_error_app2 by lia.
  rewrite L1, Nat.sub_diag. reflexivity.
Qed.

Lemma nearest_neighbor_greedy_witness :
  [0%nat; 1%nat] <> [] /\
  (0 < length [0%nat; 1%nat])%nat /\
  exists pre nb post,
    [0%nat; 1%nat] = pre ++ nb :: post /\
    (forall x, In x pre ->
       calculate_distance base_location (Bin.coordinates (sample_heap nb))
       < calculate_distance base_location (Bin.coordinates (sample_heap x))) /\
    (forall x, In x post ->
       calculate_distance base_location (Bin.coordinates (sample_heap nb))
       <= calculate_distance base_location (Bin.coordinates (sample_heap x))) /\
    nth_error (nearest_neighbor_algorithm sample_heap [0%nat; 1%nat]) 0
    = Some nb.
Proof.
  assert (H1 : [0%nat; 1%nat] <> []) by discriminate.
  assert (H2 : (0 < length [0%nat; 1%nat])%nat) by (simpl; lia).
  split; [exact H1 |]. split; [exact H2 |].
  destruct (nearest_neighbor_greedy sample_heap [0%nat; 1%nat] 0 H1 H2)
    as (_ & pre & nb & post & E & _ & Hpre & Hpost & Hn & _).
  exists pre, nb, post. simpl in E, Hpre, Hpost.
  split; [exact E |]. split; [exact Hpre |]. split; [exact Hpost | exact Hn].
Defined.

(** ** Facts on the metrics *)

Lemma path_length_nonneg (pts : list coord) :
  forall from, 0 <= path_length from pts.
Proof.
  induction pts as [| p pts IH]; intros from; simpl.
  - lra.
  - pose proof (calculate_distance_nonneg from p). specialize (IH p). lra.
Qed.

Lemma closed_walk_length_nonneg (h : heap) (route : list loc) :
  0 <= closed_walk_length h route.
Proof.
  apply path_length_nonneg.
Qed.

(** The [for] loop of [calculate_route_metrics] followed by the return
    leg adds up the legs of the closed walk. *)
Lemma leg_loop_total (h : heap) (route : list loc) :
  forall s,
    leg_total (fold_left (leg_step h) route s)
    + calculate_distance (leg_current (fold_left (leg_step h) route s))
                         base_location
    = leg_total s
      + path_length (leg_current s)
          (map (fun b => Bin.coordinates (h b)) route ++ [base_location]).
Proof.
  induction route as [| b route IH]; intros s; simpl.
  - lra.
  - rewrite IH. simpl. lra.
Qed.

Lemma leg_loop_total_init (h : heap) (route : list loc) :
  leg_total (fold_left (leg_step h) route leg_init)
  + calculate_distance (leg_current (fold_left (leg_step h) route leg_init))
                       base_location
  = closed_walk_length h route.
Proof.
  rewrite leg_loop_total. unfold closed_walk_length. simpl. lra.
Qed.

Lemma py_round_0 : py_round 0 = 0%Z.
Proof.
  apply py_round_small. lra.
Qed.

Lemma py_round1_0 : py_round1 0 = 0.
Proof.
  unfold py_round1. rewrite Rmult_0_l, py_round_0. simpl. lra.
Qed.

Lemma closed_walk_length_nil (h : heap) : closed_walk_length h [] = 0.
Proof.
  unfold closed_walk_length. simpl. rewrite calculate_distance_refl. lra.
Qed.

Lemma closed_walk_length_single (h : heap) (p : loc) :
  closed_walk_length h [p]
  = 2 * calculate_distance base_location (Bin.coordinates (h p)).
Proof.
  unfold closed_walk_length. simpl.
  rewrite (calculate_distance_sym (Bin.coordinates (h p)) base_location). lra.
Qed.

(** A non-empty route whose closed walk has a length other than zero
    gets its metrics. *)
Lemma calculate_route_metrics_ok (u : R) (h : heap) (route : list loc) :
  route <> [] -> u <> 0 -> closed_walk_length h route <> 0 ->
  exists m,
    calculate_route_metrics u h route = Ok m /\
    Route.total_distance m = py_round1 (closed_walk_length h route) /\
    Route.fuel_savings m = py_round1 ((u - 1) / u * 100) /\
    Route.stops m = route /\
    Route.travel_time m
      = Some (py_round (closed_walk_length h route / avg_speed_kmh * 60)) /\
    Route.route_efficiency_score m = None.
Proof.
  intros Hne Hu HL. unfold calculate_route_metrics.
  destruct route as [| b route]; [congruence |].
  cbv zeta. rewrite leg_loop_total_init.
  set (L := closed_walk_length h (b :: route)) in *.
  unfold py_truediv.
  destruct (Req_dec_T (L * u) 0) as [E | E].
  - exfalso. apply Rmult_integral in E. tauto.
  - eexists. split; [reflexivity |]. simpl.
    repeat split. f_equal. field. tauto.
Qed.

(** A non-empty route whose closed walk has length zero makes the
    fuel-savings quotient divide by zero. *)
Lemma calculate_route_metrics_raise (u : R) (h : heap) (route : list loc) :
  route <> [] -> closed_walk_length h route = 0 ->
  calculate_route_metrics u h route = Raise ZeroDivisionError.
Proof.
  intros Hne HL. unfold calculate_route_metrics.
  destruct route as [| b route]; [congruence |].
  cbv zeta. rewrite leg_loop_total_init, HL.
  unfold py_truediv.
  destruct (Req_dec_T (0 * u) 0) as [E | E]; [reflexivity | lra].
Qed.

(** The distance along a meridian. *)
Lemma calculate_distance_meridian (lat1 lat2 lon : R) :
  0 <= lat2 - lat1 <= 180 ->
  calculate_distance (lat1, lon) (lat2, lon)
  = 6371 * ((lat2 - lat1) * PI / 180).
Proof.
  intros Hd. unfold calculate_distance, haversine_a, radians. cbn [fst snd].
  replace ((lon * PI / 180 - lon * PI / 180) / 2) with 0 by lra.
  rewrite sin_0.
  set (x := (lat2 * PI / 180 - lat1 * PI / 180) / 2).
  pose proof PI_RGT_0 as Hpi.
  assert (Hx : 0 <= x <= PI / 2).
  { unfold x. split; nra. }
  replace (sin x ^ 2 + cos (lat1 * PI / 180) * cos (lat2 * PI / 180) * 0 ^ 2)
    with (sin x ^ 2) by ring.
  rewrite sqrt_pow2 by (apply sin_ge_0; lra).
  rewrite asin_sin by lra.
  unfold x. field.
Qed.

Lemma distance_base_near :
  calculate_distance base_location (Bin.coordinates bin_near)
  = 6371 * (0.0001 * PI / 180).
Proof.
  unfold base_location, bin_near, sample_bin. simpl Bin.coordinates.
  rewrite calculate_distance_meridian by lra.
  f_equal. lra.
Qed.

Lemma closed_walk_near :
  0 < closed_walk_length sample_heap [2%nat] < 0.05.
Proof.
  rewrite closed_walk_length_single. simpl sample_heap.
  rewrite distance_base_near.
  pose proof PI_RGT_0. pose proof PI_4. lra.
Qed.

Lemma closed_walk_depot : closed_walk_length sample_heap [0%nat] = 0.
Proof.
  rewrite closed_walk_length_single. simpl sample_heap.
  unfold bin_001, sample_bin. simpl Bin.coordinates.
  fold base_location. rewrite calculate_distance_refl. lra.
Qed.

(** ** The total distance of a route *)

(** Claim C6, as the code has it.  For the empty sequence and for every
    sequence whose closed walk depot -> stops -> depot has a length
    other than zero, the metrics are returned and their total distance
    is that length rounded to one decimal place, hence never negative;
    for a sequence of exactly one point it is twice the distance from
    the depot to the point, rounded to one decimal place. *)
Theorem route_metrics_total_distance (u : R) (h : heap) (route : list loc) :
  1.2 <= u <= 1.3 ->
  route = [] \/ closed_walk_length h route <> 0 ->
  exists m,
    calculate_route_metrics u h route = Ok m /\
    Route.total_distance m = py_round1 (closed_walk_length h route) /\
    0 <= Route.total_distance m /\
    (forall p, route = [p] ->
       Route.total_distance m
       = py_round1 (2 * calculate_distance base_location
                          (Bin.coordinates (h p)))).
Proof.
  intros Hu [Hnil | HL].
  - subst route. exists empty_route. split; [reflexivity |].
    rewrite closed_walk_length_nil, py_round1_0. simpl.
    split; [reflexivity |]. split; [lra |]. intros p Hp. discriminate.
  - assert (Hne : route <> []).
    { intros E. subst route. apply HL. apply closed_walk_length_nil. }
    destruct (calculate_route_metrics_ok u h route Hne) as (m & Em & Et & _);
      [lra | exact HL |].
    exists m. split; [exact Em |]. split; [exact Et |]. split.
    + rewrite Et. apply py_round1_nonneg. apply closed_walk_length_nonneg.
    + intros p Hp. subst route. rewrite Et, closed_walk_length_single.
      reflexivity.
Qed.

Lemma route_metrics_total_distance_witness :
  1.2 <= 1.25 <= 1.3 /\
  ([2%nat] = [] \/ closed_walk_length sample_heap [2%nat] <> 0) /\
  exists m,
    calculate_route_metrics 1.25 sample_heap [2%nat] = Ok m /\
    Route.total_distance m = py_round1 (closed_walk_length sample_heap [2%nat]).
Proof.
  assert (H1 : 1.2 <= 1.25 <= 1.3) by lra.
  assert (H2 : [2%nat] = [] \/ closed_walk_length sample_heap [2%nat] <> 0).
  { right. pose proof closed_walk_near. lra. }
  split; [exact H1 |]. split; [exact H2 |].
  destruct (route_metrics_total_distance 1.25 sample_heap [2%nat] H1 H2)
    as (m & Em & Et & _).
  exists m. split; [exact Em | exact Et].
Defined.

(** Claim C6 fails as stated: for the single bin [bin_near], 11 metres
    north of the depot, the metrics are returned with a total distance
    of 0.0, which is not twice the (positive) distance from the depot
    to the bin. *)
Lemma route_metrics_total_distance_rounded :
  exists m,
    calculate_route_metrics 1.25 sample_heap [2%nat] = Ok m /\
    Route.total_distance m = 0 /\
    Route.total_distance m
    <> 2 * calculate_distance base_location
             (Bin.coordinates (sample_heap 2%nat)).
Proof.
  pose proof closed_walk_near as Hw.
  destruct (calculate_route_metrics_ok 1.25 sample_heap [2%nat])
    as (m & Em & Et & _); [discriminate | lra | lra |].
  assert (E0 : Route.total_distance m = 0).
  { rewrite Et. unfold py_round1. rewrite py_round_small by lra.
    simpl. lra. }
  exists m. split; [exact Em |]. split; [exact E0 |].
  rewrite E0, <- closed_walk_length_single. lra.
Qed.

(** ** Facts on the results of the route functions *)

(** What [calculate_route_metrics] returns when it returns. *)
Lemma calculate_route_metrics_inv (u : R) (h : heap) (route : list loc)
  (m : Route.t) :
  1.2 <= u <= 1.3 ->
  calculate_route_metrics u h route = Ok m ->
  Route.stops m = route /\
  0 <= Route.fuel_savings m /\
  0 <= Route.total_distance m /\
  Route.route_efficiency_score m = None /\
  (route <> [] -> exists t, Route.travel_time m = Some t).
Proof.
  intros Hu Hm. destruct route as [| b route].
  - simpl in Hm. injection Hm as <-. simpl.
    repeat split; try lra. intros H. congruence.
  - destruct (Req_dec_T (closed_walk_length h (b :: route)) 0) as [E | E].
    + rewrite calculate_route_metrics_raise in Hm by (congruence || exact E).
      discriminate.
    + destruct (calculate_route_metrics_ok u h (b :: route))
        as (m' & Em & Et & Ef & Es & Ett & Ee);
        [congruence | lra | exact E |].
      rewrite Em in Hm. injection Hm as <-.
      split; [exact Es |]. split.
      { rewrite Ef. apply py_round1_nonneg.
        apply Rmult_le_pos; [| lra].
        apply Rlt_le. apply Rdiv_lt_0_compat; lra. }
      split.
      { rewrite Et. apply py_round1_nonneg. apply closed_walk_length_nonneg. }
      split; [exact Ee |].
      intros _. eexists. exact Ett.
Qed.

(** What [calculate_optimal_route] returns when it returns. *)
Lemma calculate_optimal_route_inv (now u : R) (h : heap) (bins : list loc)
  (m : Route.t) :
  1.2 <= u <= 1.3 ->
  snd (calculate_optimal_route now u h bins) = Ok m ->
  (bins = [] /\ m = empty_route) \/
  (bins <> [] /\
   exists rm t,
     calculate_route_metrics u h (nearest_neighbor_algorithm h bins) = Ok rm /\
     Route.travel_time rm = Some t /\
     m = add_summary now (length bins) rm /\
     fst (calculate_optimal_route now u h bins)
     = annotate_stops now t (length (Route.stops rm)) h 0 (Route.stops rm)).
Proof.
  intros Hu Hm. destruct bins as [| b bins].
  - left. simpl in Hm. injection Hm as <-. auto.
  - right. split; [congruence |].
    unfold calculate_optimal_route in *.
    set (r := nearest_neighbor_algorithm h (b :: bins)) in *.
    destruct (calculate_route_metrics u h r) as [rm | e] eqn:Erm;
      [| discriminate].
    destruct (calculate_route_metrics_inv u h r rm Hu Erm)
      as (_ & _ & _ & _ & Ht).
    destruct Ht as (t & Et).
    { apply nearest_neighbor_nonempty. discriminate. }
    rewrite Et in *. simpl in Hm. injection Hm as <-.
    exists rm, t. auto.
Qed.

(** A non-empty list whose sequenced closed walk has a length other than
    zero gets its route. *)
Lemma calculate_optimal_route_ok (now u : R) (h : heap) (bins : list loc) :
  bins <> [] -> u <> 0 ->
  closed_walk_length h (nearest_neighbor_algorithm h bins) <> 0 ->
  exists rm t,
    calculate_route_metrics u h (nearest_neighbor_algorithm h bins) = Ok rm /\
    Route.stops rm = nearest_neighbor_algorithm h bins /\
    Route.travel_time rm = Some t /\
    calculate_optimal_route now u h bins
    = (annotate_stops now t (length (Route.stops rm)) h 0 (Route.stops rm),
       Ok (add_summary now (length bins) rm)).
Proof.
  intros Hne Hu HL.
  pose proof (nearest_neighbor_nonempty h bins Hne) as Hr.
  destruct (calculate_route_metrics_ok u h _ Hr Hu HL)
    as (rm & Em & _ & _ & Es & Et & _).
  exists rm. eexists. split; [exact Em |]. split; [exact Es |].
  split; [exact Et |].
  unfold calculate_optimal_route. destruct bins as [| b bins]; [congruence |].
  rewrite Em, Et. reflexivity.
Qed.

(** A non-empty list whose sequenced closed walk has length zero makes
    [calculate_optimal_route] raise, the heap untouched. *)
Lemma calculate_optimal_route_raise (now u : R) (h : heap) (bins : list loc) :
  bins <> [] ->
  closed_walk_length h (nearest_neighbor_algorithm h bins) = 0 ->
  calculate_optimal_route now u h bins = (h, Raise ZeroDivisionError).
Proof.
  intros Hne HL.
  pose proof (nearest_neighbor_nonempty h bins Hne) as Hr.
  unfold calculate_optimal_route. destruct bins as [| b bins]; [congruence |].
  rewrite (calculate_route_metrics_raise u h _ Hr HL). reflexivity.
Qed.

(** ** The two scores *)

Lemma environmental_score_bounds (rm : Route.t) :
  -25 <= Route.fuel_savings rm ->
  0 <= environmental_score (calculate_environmental_impact rm) <= 100.
Proof.
  intros H. unfold calculate_environmental_impact. simpl. split.
  - apply Rmin_glb; lra.
  - apply Rmin_l.
Qed.

Lemma truck_loop_scores (now : R) (us : nat -> R) (bins : list loc)
  (n k : nat) (ids : list nat) :
  (forall j, 1.2 <= us j <= 1.3) ->
  forall (h : heap) (routes : list Route.t) (h' : heap)
         (plans : list Route.t),
    Forall scores_in_range routes ->
    truck_loop now us bins n k ids h routes = (h', Ok plans) ->
    Forall scores_in_range plans.
Proof.
  intros Hus. induction ids as [| i ids IH];
    intros h routes h' plans Hr Hl; simpl in Hl.
  - injection Hl as <- <-. exact Hr.
  - destruct (truck_bins_of bins n k i) as [| b tb] eqn:Etb.
    + eapply IH; [exact Hr | exact Hl].
    + destruct (calculate_optimal_route now (us (length routes)) h (b :: tb))
        as [h1 [m | e]] eqn:Ec; [| discriminate].
      eapply IH; [| exact Hl].
      apply Forall_app. split; [exact Hr |].
      constructor; [| constructor].
      destruct (calculate_optimal_route_inv now (us (length routes)) h
                  (b :: tb) m (Hus _))
        as [[Eb _] | (_ & rm' & t & Erm & _ & Em & _)];
        [rewrite Ec; reflexivity | discriminate |].
      destruct (calculate_route_metrics_inv _ h _ rm' (Hus _) Erm)
        as (_ & Hf & _).
      subst m. split.
      * apply environmental_score_bounds. simpl. lra.
      * simpl. eexists. split; [reflexivity |]. split.
        -- apply Rmin_glb; lra.
        -- apply Rmin_l.
Qed.

(** Claim C7.  For every route dictionary the optimizer produces, be it
    the metrics of a sequence, an optimized route or a plan of the
    multi-truck allocation, the environmental score of the estimator
    lies in [0, 100]; the efficiency score of an optimized route, which
    the route carries exactly when the input is not empty, lies in
    [0, 95], and so does that of every plan of the allocation. *)
Theorem scores_within_ranges (now u : R) (us : nat -> R) (h : heap)
  (route bins : list loc) (num_trucks : Z) (rm m : Route.t)
  (plans : list Route.t) :
  1.2 <= u <= 1.3 ->
  (forall j, 1.2 <= us j <= 1.3) ->
  calculate_route_metrics u h route = Ok rm ->
  snd (calculate_optimal_route now u h bins) = Ok m ->
  snd (optimize_multi_truck_routes now us h bins num_trucks) = Ok plans ->
  0 <= environmental_score (calculate_environmental_impact rm) <= 100 /\
  0 <= environmental_score (calculate_environmental_impact m) <= 100 /\
  (forall s, Route.route_efficiency_score m = Some s -> 0 <= s <= 95) /\
  (bins <> [] <-> exists s, Route.route_efficiency_score m = Some s) /\
  Forall scores_in_range plans.
Proof.
  intros Hu Hus Hrm Hm Hp.
  split.
  { destruct (calculate_route_metrics_inv u h route rm Hu Hrm)
      as (_ & Hf & _).
    apply environmental_score_bounds. lra. }
  assert (Hplans : Forall scores_in_range plans).
  { unfold optimize_multi_truck_routes in Hp.
    destruct bins as [| b0 bins0]; [injection Hp as <-; constructor |].
    destruct (num_trucks <=? 0)%Z; [injection Hp as <-; constructor |].
    match type of Hp with
    | snd ?c = _ => destruct c as [h' r] eqn:El
    end.
    simpl in Hp. subst r.
    eapply truck_loop_scores; [exact Hus | constructor | exact El]. }
  destruct (calculate_optimal_route_inv now u h bins m Hu Hm)
    as [[Eb Em] | (Hne & rm' & t & Erm & Et & Em & _)].
  - subst bins m. split.
    + apply environmental_score_bounds. simpl. lra.
    + split.
      * simpl. intros s Hs. discriminate.
      * split; [| exact Hplans].
        simpl. split; [congruence | intros [s Hs]; discriminate].
  - destruct (calculate_route_metrics_inv u h _ rm' Hu Erm)
      as (_ & Hf & _).
    subst m. split.
    + apply environmental_score_bounds. simpl. lra.
    + split.
      * simpl. intros s Hs. injection Hs as <-. split.
        -- apply Rmin_glb; lra.
        -- apply Rmin_l.
      * split; [| exact Hplans].
        simpl. split; [intros _; eexists; reflexivity | intros _; exact Hne].
Qed.

Lemma scores_within_ranges_witness :
  1.2 <= 1.25 <= 1.3 /\
  (forall j : nat, 1.2 <= (fun _ : nat => 1.25) j <= 1.3) /\
  exists rm m plans,
    calculate_route_metrics 1.25 sample_heap [2%nat] = Ok rm /\
    snd (calculate_optimal_route 0 1.25 sample_heap [2%nat]) = Ok m /\
    snd (optimize_multi_truck_routes 0 (fun _ => 1.25) sample_heap
           [2%nat] 1) = Ok plans /\
    length plans = 1%nat /\
    0 <= environmental_score (calculate_environmental_impact rm) <= 100 /\
    (exists s, Route.route_efficiency_score m = Some s /\ 0 <= s <= 95) /\
    Forall scores_in_range plans.
Proof.
  assert (H1 : 1.2 <= 1.25 <= 1.3) by lra.
  assert (H2 : forall j : nat, 1.2 <= (fun _ : nat => 1.25) j <= 1.3)
    by (intros j; lra).
  split; [exact H1 |]. split; [exact H2 |].
  destruct (calculate_optimal_route_ok 0 1.25 sample_heap [2%nat])
    as (rm & t & Erm & _ & _ & E).
  - discriminate.
  - lra.
  - pose proof closed_walk_near. simpl nearest_neighbor_algorithm. lra.
  - change (nearest_neighbor_algorithm sample_heap [2%nat]) with [2%nat]
      in Erm.
    assert (Em : snd (calculate_optimal_route 0 1.25 sample_heap [2%nat])
                 = Ok (add_summary 0 (length [2%nat]) rm))
      by (rewrite E; reflexivity).
    assert (Ep : snd (optimize_multi_truck_routes 0 (fun _ => 1.25)
                        sample_heap [2%nat] 1)
                 = Ok [add_truck 0 (add_summary 0 (length [2%nat]) rm)]).
    { unfold optimize_multi_truck_routes.
      change (1 <=? 0)%Z with false. cbv iota.
      change (Z.to_nat (Z.of_nat (length [2%nat]) / 1)) with 1%nat.
      change (Z.to_nat 1) with 1%nat.
      change (seq 0 1) with [0%nat].
      unfold truck_loop.
      change (truck_bins_of [2%nat] 1 1 0) with [2%nat].
      change (length (@nil Route.t)) with 0%nat.
      rewrite E. reflexivity. }
    destruct (scores_within_ranges 0 1.25 (fun _ => 1.25) sample_heap
                [2%nat] [2%nat] 1 _ _ _ H1 H2 Erm Em Ep)
      as (Hr & _ & Hs & _ & Hpl).
    eexists. eexists. eexists.
    split; [exact Erm |]. split; [exact Em |]. split; [exact Ep |].
    split; [reflexivity |]. split; [exact Hr |]. split; [| exact Hpl].
    eexists. split; [reflexivity |]. apply Hs. reflexivity.
Defined.

(** ** Facts on the heap after a call *)

Lemma same_payload_refl (a : Bin.t) : same_payload a a.
Proof.
  unfold same_payload. repeat split; reflexivity.
Qed.

Lemma same_payload_trans (a b c : Bin.t) :
  same_payload a b -> same_payload b c -> same_payload a c.
Proof.
  unfold same_payload. intros H1 H2.
  destruct H1 as (A1 & A2 & A3 & A4 & A5 & A6 & A7 & A8 & A9).
  destruct H2 as (B1 & B2 & B3 & B4 & B5 & B6 & B7 & B8 & B9).
  repeat split; congruence.
Qed.

Lemma annotate_stop_frame (now : R) (t : Z) (n : nat) (h : heap) (i : nat)
  (stop l : loc) :
  same_payload (annotate_stop now t n h i stop l) (h l) /\
  (l <> stop -> annotate_stop now t n h i stop l = h l).
Proof.
  unfold annotate_stop, heap_set.
  destruct (Nat.eqb l stop) eqn:E.
  - apply Nat.eqb_eq in E. subst l. split.
    + unfold same_payload. simpl. repeat split; reflexivity.
    + intros H. congruence.
  - split; [apply same_payload_refl | reflexivity].
Qed.

Lemma annotate_stops_frame (now : R) (t : Z) (n : nat) (stops : list loc) :
  forall (h : heap) (i : nat) (l : loc),
    same_payload (annotate_stops now t n h i stops l) (h l) /\
    (~ In l stops -> annotate_stops now t n h i stops l = h l).
Proof.
  induction stops as [| stop stops IH]; intros h i l; simpl.
  - split; [apply same_payload_refl | reflexivity].
  - destruct (IH (annotate_stop now t n h i stop) (S i) l) as [I1 I2].
    destruct (annotate_stop_frame now t n h i stop l) as [A1 A2].
    split.
    + eapply same_payload_trans; [exact I1 | exact A1].
    + intros Hn. rewrite I2 by tauto. apply A2. intros E. apply Hn. auto.
Qed.

(** The last stop of a route is written last: after the loop it carries
    its own sequence number. *)
Lemma annotate_stops_single (now : R) (t : Z) (n : nat) (h : heap) (l : loc) :
  Bin.sequence (annotate_stops now t n h 0 [l] l) = Some 1%Z /\
  Bin.estimated_time (annotate_stops now t n h 0 [l] l)
  = Some service_time_minutes.
Proof.
  simpl. unfold annotate_stop, heap_set. rewrite Nat.eqb_refl. simpl. auto.
Qed.

Lemma calculate_route_metrics_stops (u : R) (h : heap) (route : list loc)
  (m : Route.t) :
  calculate_route_metrics u h route = Ok m -> Route.stops m = route.
Proof.
  unfold calculate_route_metrics. destruct route as [| b route].
  - intros H. injection H as <-. reflexivity.
  - cbv zeta. destruct (py_truediv _ _); intros H; [| discriminate].
    injection H as <-. reflexivity.
Qed.

Lemma calculate_optimal_route_frame (now u : R) (h : heap) (bins : list loc)
  (l : loc) :
  same_payload (fst (calculate_optimal_route now u h bins) l) (h l) /\
  (~ In l bins -> fst (calculate_optimal_route now u h bins) l = h l).
Proof.
  assert (Hsame : same_payload (h l) (h l) /\ (~ In l bins -> h l = h l)).
  { split; [apply same_payload_refl | reflexivity]. }
  unfold calculate_optimal_route. destruct bins as [| b bins]; [exact Hsame |].
  set (r := nearest_neighbor_algorithm h (b :: bins)).
  destruct (calculate_route_metrics u h r) as [rm | e] eqn:Erm;
    [| exact Hsame].
  destruct (Route.travel_time rm) as [t |].
  - simpl fst.
    destruct (annotate_stops_frame now t (length (Route.stops rm))
                (Route.stops rm) h 0 l) as [A1 A2].
    split; [exact A1 |].
    intros Hn. apply A2.
    rewrite (calculate_route_metrics_stops u h r rm Erm).
    intros Hin. apply Hn.
    eapply Permutation_in; [apply nearest_neighbor_perm | exact Hin].
  - destruct (Route.stops rm); exact Hsame.
Qed.

Lemma In_skipn {A : Type} (x : A) (n : nat) (l : list A) :
  In x (skipn n l) -> In x l.
Proof.
  intros H. rewrite <- (firstn_skipn n l). apply in_or_app. right. exact H.
Qed.

Lemma In_firstn {A : Type} (x : A) (n : nat) (l : list A) :
  In x (firstn n l) -> In x l.
Proof.
  intros H. rewrite <- (firstn_skipn n l). apply in_or_app. left. exact H.
Qed.

Lemma In_truck_bins_of (bins : list loc) (n k i : nat) (x : loc) :
  In x (truck_bins_of bins n k i) -> In x bins.
Proof.
  unfold truck_bins_of, slice, slice_from.
  destruct (Nat.eqb i (n - 1)); intros H.
  - eapply In_skipn. exact H.
  - eapply In_skipn. eapply In_firstn. exact H.
Qed.

Lemma truck_loop_frame (now : R) (us : nat -> R) (bins : list loc)
  (n k : nat) (ids : list nat) (l : loc) :
  forall (h : heap) (routes : list Route.t),
    same_payload (fst (truck_loop now us bins n k ids h routes) l) (h l) /\
    (~ In l bins -> fst (truck_loop now us bins n k ids h routes) l = h l).
Proof.
  induction ids as [| i ids IH]; intros h routes; simpl.
  - split; [apply same_payload_refl | reflexivity].
  - destruct (truck_bins_of bins n k i) as [| b tb] eqn:Etb.
    + apply IH.
    + destruct (calculate_optimal_route_frame now (us (length routes)) h
                  (b :: tb) l) as [F1 F2].
      assert (Hsub : ~ In l bins -> ~ In l (b :: tb)).
      { intros Hn Hin. apply Hn. rewrite <- Etb in Hin.
        eapply In_truck_bins_of. exact Hin. }
      destruct (calculate_optimal_route now (us (length routes)) h (b :: tb))
        as [h' [rm | e]]; simpl fst in *.
      * destruct (IH h' (routes ++ [add_truck i rm])) as [I1 I2].
        split.
        -- eapply same_payload_trans; [exact I1 | exact F1].
        -- intros Hn. rewrite I2 by exact Hn. apply F2. apply Hsub. exact Hn.
      * split; [exact F1 |]. intros Hn. apply F2. apply Hsub. exact Hn.
Qed.

Lemma optimize_multi_truck_routes_frame (now : R) (us : nat -> R) (h : heap)
  (bins : list loc) (num_trucks : Z) (l : loc) :
  same_payload (fst (optimize_multi_truck_routes now us h bins num_trucks) l)
               (h l) /\
  (~ In l bins ->
   fst (optimize_multi_truck_routes now us h bins num_trucks) l = h l).
Proof.
  unfold optimize_multi_truck_routes.
  destruct bins as [| b bins].
  - split; [apply same_payload_refl | reflexivity].
  - destruct (num_trucks <=? 0)%Z.
    + split; [apply same_payload_refl | reflexivity].
    + apply truck_loop_frame.
Qed.

(** ** What the optimizer writes into the caller's records *)

(** Claim C3, as the code has it.  The sequencer and the metrics
    computation only read the heap.  Single-route optimization and
    multi-truck allocation leave every record outside the input list
    untouched, and in the records of the input list they leave every key
    the caller supplied (id, name, location, coordinates, fill level,
    battery level, waste type, status, last collection) unchanged: the
    only keys they write are [estimated_time], [sequence] and
    [arrival_time]. *)
Theorem optimizer_writes_only_stop_keys (now u : R) (us : nat -> R)
  (h : heap) (bins : list loc) (num_trucks : Z) (l : loc) :
  same_payload (fst (calculate_optimal_route now u h bins) l) (h l) /\
  (~ In l bins -> fst (calculate_optimal_route now u h bins) l = h l) /\
  same_payload (fst (optimize_multi_truck_routes now us h bins num_trucks) l)
               (h l) /\
  (~ In l bins ->
   fst (optimize_multi_truck_routes now us h bins num_trucks) l = h l).
Proof.
  destruct (calculate_optimal_route_frame now u h bins l) as [A1 A2].
  destruct (optimize_multi_truck_routes_frame now us h bins num_trucks l)
    as [B1 B2].
  auto.
Qed.

(** Claim C3 fails as stated: after single-route optimization of the
    one bin [bin_near], the caller's record has the new key [sequence]
    with value 1 and is no longer the record that was passed in. *)
Lemma calculate_optimal_route_mutates_input :
  Bin.sequence (sample_heap 2%nat) = None /\
  Bin.sequence
    (fst (calculate_optimal_route 0 1.25 sample_heap [2%nat]) 2%nat)
  = Some 1%Z /\
  fst (calculate_optimal_route 0 1.25 sample_heap [2%nat]) 2%nat
  <> sample_heap 2%nat.
Proof.
  destruct (calculate_optimal_route_ok 0 1.25 sample_heap [2%nat])
    as (rm & t & _ & Es & _ & E).
  - discriminate.
  - lra.
  - pose proof closed_walk_near. simpl nearest_neighbor_algorithm. lra.
  - rewrite E. simpl fst. rewrite Es. simpl nearest_neighbor_algorithm.
    destruct (annotate_stops_single 0 t (length [2%nat]) sample_heap 2%nat)
      as [S1 _].
    split; [reflexivity |]. split; [exact S1 |].
    intros C. rewrite C in S1. discriminate.
Qed.

(** ** Vehicle counts that are not positive *)

(** Claim C1, as the code has it.  For every list of collection points
    and every [num_trucks <= 0], multi-truck allocation raises nothing:
    it returns the empty list of routes and leaves the heap as it was. *)
Theorem optimize_multi_truck_routes_nonpositive (now : R) (us : nat -> R)
  (h : heap) (bins : list loc) (num_trucks : Z) :
  (num_trucks <= 0)%Z ->
  optimize_multi_truck_routes now us h bins num_trucks = (h, Ok []).
Proof.
  intros Hn. unfold optimize_multi_truck_routes.
  destruct bins as [| b bins]; [reflexivity |].
  destruct (Z.leb_spec num_trucks 0); [reflexivity | lia].
Qed.

Lemma optimize_multi_truck_routes_nonpositive_witness :
  (-1 <= 0)%Z /\
  optimize_multi_truck_routes 0 (fun _ => 1.25) sample_heap
    [0%nat; 1%nat] (-1)
  = (sample_heap, Ok []).
Proof.
  assert (H : (-1 <= 0)%Z) by lia.
  split; [exact H |].
  apply (optimize_multi_truck_routes_nonpositive 0 (fun _ => 1.25)
           sample_heap [0%nat; 1%nat] (-1) H).
Defined.

(** Claim C1 fails as stated: with two bins and zero trucks the call
    returns the empty list; no exception reaches the caller. *)
Lemma optimize_multi_truck_routes_zero_trucks :
  snd (optimize_multi_truck_routes 0 (fun _ => 1.25) sample_heap
         [0%nat; 1%nat] 0)
  = Ok [] /\
  forall e : exn,
    snd (optimize_multi_truck_routes 0 (fun _ => 1.25) sample_heap
           [0%nat; 1%nat] 0)
    <> Raise e.
Proof.
  split; [reflexivity |]. intros e. simpl. discriminate.
Qed.

(** ** Empty input *)

(** Claim C9.  For the empty list of collection points, single-route
    optimization raises nothing and returns the zero-valued route: total
    distance 0, estimated time 0, fuel savings 0, no stops, no
    coordinates; and for every [num_trucks > 0] multi-truck allocation
    of the empty list returns no route at all.  Neither call touches the
    heap. *)
Theorem empty_input_is_not_an_error (now u : R) (us : nat -> R) (h : heap)
  (num_trucks : Z) :
  (0 < num_trucks)%Z ->
  (exists m,
     calculate_optimal_route now u h [] = (h, Ok m) /\
     Route.total_distance m = 0 /\
     Route.estimated_time m = 0%Z /\
     Route.fuel_savings m = 0 /\
     Route.stops m = [] /\
     Route.coordinates m = []) /\
  optimize_multi_truck_routes now us h [] num_trucks = (h, Ok []).
Proof.
  intros _. split.
  - exists empty_route. simpl. repeat split; reflexivity.
  - reflexivity.
Qed.

Lemma empty_input_is_not_an_error_witness :
  (0 < 2)%Z /\
  optimize_multi_truck_routes 0 (fun _ => 1.25) sample_heap [] 2
  = (sample_heap, Ok []).
Proof.
  assert (H : (0 < 2)%Z) by lia.
  split; [exact H |].
  apply (empty_input_is_not_an_error 0 1.25 (fun _ => 1.25) sample_heap 2 H).
Defined.

(** ** Facts on the slices of the trucks *)

Lemma slices_concat_prefix {A : Type} (l : list A) (k j : nat) :
  concat (map (fun i => slice l (i * k) (i * k + k)) (seq 0 j))
  ++ skipn (j * k) l = l.
Proof.
  induction j as [| j IH].
  - reflexivity.
  - rewrite seq_S, map_app, concat_app. simpl.
    rewrite app_nil_r, <- app_assoc.
    unfold slice at 2.
    replace (j * k + k - j * k)%nat with k by lia.
    replace (skipn (k + j * k) l) with (skipn k (skipn (j * k) l))
      by (rewrite skipn_skipn; reflexivity).
    rewrite firstn_skipn. exact IH.
Qed.

(** The slices are contiguous, in input order, and cover the input. *)
Lemma truck_slices_concat (bins : list loc) (n k : nat) :
  (0 < n)%nat -> concat (truck_slices bins n k) = bins.
Proof.
  intros Hn. unfold truck_slices.
  destruct n as [| j]; [lia |].
  rewrite seq_S, map_app, concat_app. simpl.
  rewrite app_nil_r.
  rewrite <- (slices_concat_prefix bins k j) at 3.
  f_equal.
  - f_equal. apply map_ext_in. intros i Hi. apply in_seq in Hi.
    unfold truck_bins_of.
    destruct (Nat.eqb_spec i (S j - 1)); [lia | reflexivity].
  - unfold truck_bins_of.
    destruct (Nat.eqb_spec j (S j - 1)); [reflexivity | lia].
Qed.

(** Every truck but the last gets [len // n] bins, the last one gets the
    remainder as well. *)
Lemma truck_slices_length (bins : list loc) (n : nat) :
  (0 < n)%nat ->
  (forall i, (i < n - 1)%nat ->
     length (truck_bins_of bins n (length bins / n) i)
     = (length bins / n)%nat) /\
  length (truck_bins_of bins n (length bins / n) (n - 1))
  = (length bins / n + length bins mod n)%nat.
Proof.
  intros Hn.
  pose proof (Nat.div_mod_eq (length bins) n) as Hdm.
  set (k := (length bins / n)%nat) in *.
  set (r := (length bins mod n)%nat) in *.
  split.
  - intros i Hi. unfold truck_bins_of, slice.
    destruct (Nat.eqb_spec i (n - 1)); [lia |].
    rewrite length_firstn, length_skipn. nia.
  - unfold truck_bins_of, slice_from. rewrite Nat.eqb_refl.
    rewrite length_skipn. nia.
Qed.

(** [len(bins) // num_trucks] on Python integers is the division of
    natural numbers. *)
Lemma bins_per_truck_nat (len : nat) (num_trucks : Z) :
  (0 < num_trucks)%Z ->
  Z.to_nat (Z.of_nat len / num_trucks) = (len / Z.to_nat num_trucks)%nat.
Proof.
  intros Hn.
  rewrite <- (Z2Nat.id num_trucks) at 1 by lia.
  rewrite <- Nat2Z.inj_div. apply Nat2Z.id.
Qed.

Lemma nonempty_trucks_nil (n k : nat) (ids : list nat) :
  nonempty_trucks [] n k ids = [].
Proof.
  unfold nonempty_trucks. induction ids as [| i ids IH]; simpl.
  - reflexivity.
  - unfold truck_bins_of, slice, slice_from at 1.
    destruct (Nat.eqb i (n - 1)).
    + rewrite skipn_nil. exact IH.
    + rewrite skipn_nil, firstn_nil. exact IH.
Qed.

Lemma filter_none {A : Type} (f : A -> bool) (l : list A) :
  (forall x, In x l -> f x = false) -> filter f l = [].
Proof.
  induction l as [| x l IH]; intros H; simpl.
  - reflexivity.
  - rewrite (H x (or_introl eq_refl)). apply IH.
    intros y Hy. apply H. right. exact Hy.
Qed.

(** With more trucks than bins only the last truck receives bins. *)
Lemma nonempty_trucks_last (bins : list loc) (n : nat) :
  bins <> [] -> (0 < n)%nat ->
  nonempty_trucks bins n 0 (seq 0 n) = [(n - 1)%nat] /\
  truck_bins_of bins n 0 (n - 1) = bins.
Proof.
  intros Hne Hn. split.
  - unfold nonempty_trucks.
    destruct n as [| j]; [lia |].
    rewrite seq_S, filter_app. simpl.
    replace (j - 0)%nat with j by lia.
    assert (E : filter
                  (fun i => match truck_bins_of bins (S j) 0 i with
                            | [] => false
                            | _ :: _ => true
                            end) (seq 0 j) = []).
    { apply filter_none. intros i Hi. apply in_seq in Hi.
      unfold truck_bins_of, slice.
      destruct (Nat.eqb_spec i (S j - 1)); [lia |].
      replace (i * 0 + 0 - i * 0)%nat with 0%nat by lia. reflexivity. }
    rewrite E. simpl.
    unfold truck_bins_of, slice_from.
    replace (S j - 1)%nat with j by lia.
    rewrite Nat.eqb_refl, Nat.mul_0_r. simpl.
    destruct bins; [congruence | reflexivity].
  - unfold truck_bins_of, slice_from. rewrite Nat.eqb_refl, Nat.mul_0_r.
    reflexivity.
Qed.

(** ** Facts on the allocation loop *)

Lemma closed_walk_off_depot (h : heap) (route : list loc) :
  route <> [] ->
  (forall b, In b route ->
     calculate_distance base_location (Bin.coordinates (h b)) <> 0) ->
  closed_walk_length h route <> 0.
Proof.
  intros Hne Hoff. destruct route as [| x route]; [congruence |].
  unfold closed_walk_length. simpl.
  pose proof (Hoff x (or_introl eq_refl)) as Hx.
  pose proof (calculate_distance_nonneg base_location (Bin.coordinates (h x))).
  pose proof (path_length_nonneg
                (map (fun b => Bin.coordinates (h b)) route ++ [base_location])
                (Bin.coordinates (h x))).
  lra.
Qed.

(** When no bin stands on the depot, every truck that receives bins gets
    its route, and the loop returns one plan for each such truck, in
    the order of the trucks. *)
Lemma truck_loop_ok (now : R) (us : nat -> R) (bins : list loc) (n k : nat)
  (ids : list nat) :
  (forall j, us j <> 0) ->
  forall (h : heap) (routes : list Route.t),
    off_depot h bins ->
    exists h' plans,
      truck_loop now us bins n k ids h routes = (h', Ok (routes ++ plans)) /\
      Forall2 (plan_of_truck bins n k) plans (nonempty_trucks bins n k ids).
Proof.
  intros Hus. induction ids as [| i ids IH]; intros h routes Hoff; simpl.
  - exists h, []. rewrite app_nil_r. split; [reflexivity | constructor].
  - unfold nonempty_trucks. simpl filter.
    destruct (truck_bins_of bins n k i) as [| b tb] eqn:Etb.
    + apply IH. exact Hoff.
    + set (r := nearest_neighbor_algorithm h (b :: tb)).
      assert (Hin : forall x, In x r -> In x bins).
      { intros x Hx. apply (In_truck_bins_of bins n k i). rewrite Etb.
        eapply Permutation_in; [apply nearest_neighbor_perm | exact Hx]. }
      destruct (calculate_optimal_route_ok now (us (length routes)) h (b :: tb))
        as (rm & t & _ & Es & _ & E).
      * discriminate.
      * apply Hus.
      * fold r. apply closed_walk_off_depot.
        -- apply nearest_neighbor_nonempty. discriminate.
        -- intros x Hx. apply Hoff. apply Hin. exact Hx.
      * rewrite E.
        set (h' := annotate_stops now t (length (Route.stops rm)) h 0
                     (Route.stops rm)).
        set (m := add_truck i (add_summary now (length (b :: tb)) rm)).
        destruct (IH h' (routes ++ [m])) as (h'' & plans & El & Ef).
        { intros x Hx.
          destruct (annotate_stops_frame now t (length (Route.stops rm))
                      (Route.stops rm) h 0 x) as [(_ & _ & _ & Ec & _) _].
          fold h' in Ec. rewrite Ec. apply Hoff. exact Hx. }
        exists h'', (m :: plans). split.
        -- rewrite El, <- app_assoc. reflexivity.
        -- constructor; [| exact Ef].
           split.
           ++ subst m. simpl. rewrite Es, Etb. apply nearest_neighbor_perm.
           ++ reflexivity.
Qed.

Lemma plans_concat_perm (bins : list loc) (n k : nat) (ids : list nat) :
  forall plans,
    Forall2 (plan_of_truck bins n k) plans (nonempty_trucks bins n k ids) ->
    Permutation (concat (map Route.stops plans))
                (concat (map (truck_bins_of bins n k) ids)).
Proof.
  induction ids as [| i ids IH]; intros plans Hf.
  - inversion Hf. constructor.
  - unfold nonempty_trucks in Hf. simpl in Hf |- *.
    destruct (truck_bins_of bins n k i) as [| b tb] eqn:Etb.
    + simpl. apply IH. exact Hf.
    + inversion Hf as [| m i' plans' ids' Hm Hrest]; subst.
      simpl.
      change (Permutation (Route.stops m ++ concat (map Route.stops plans'))
                ((b :: tb)
                 ++ concat (map (truck_bins_of bins n k) ids))).
      apply Permutation_app.
      * destruct Hm as [Hp _]. rewrite Etb in Hp. exact Hp.
      * apply IH. exact Hrest.
Qed.

(** The allocation away from the depot: for every points list none of
    whose bins stands on the depot and every [num_trucks > 0], the
    routes returned are the plans of the trucks that received bins, the
    slices of the trucks are contiguous and cover the input, and the
    stops of all plans together are a permutation of the input. *)
Lemma allocation_partition (now : R) (us : nat -> R) (h : heap)
  (bins : list loc) (num_trucks : Z) :
  (0 < num_trucks)%Z ->
  (forall j, us j <> 0) ->
  off_depot h bins ->
  exists h' plans,
    optimize_multi_truck_routes now us h bins num_trucks = (h', Ok plans) /\
    Forall2 (plan_of_truck bins (Z.to_nat num_trucks)
               (length bins / Z.to_nat num_trucks))
            plans
            (nonempty_trucks bins (Z.to_nat num_trucks)
               (length bins / Z.to_nat num_trucks)
               (seq 0 (Z.to_nat num_trucks))) /\
    concat (truck_slices bins (Z.to_nat num_trucks)
              (length bins / Z.to_nat num_trucks)) = bins /\
    Permutation (concat (map Route.stops plans)) bins /\
    (NoDup bins -> NoDup (concat (map Route.stops plans))).
Proof.
  intros Hn Hus Hoff.
  set (n := Z.to_nat num_trucks). set (k := (length bins / n)%nat).
  assert (Hn' : (0 < n)%nat) by (unfold n; lia).
  assert (Hex : exists h' plans,
             optimize_multi_truck_routes now us h bins num_trucks
             = (h', Ok plans) /\
             Forall2 (plan_of_truck bins n k) plans
                     (nonempty_trucks bins n k (seq 0 n))).
  { unfold optimize_multi_truck_routes. destruct bins as [| b bins].
    - exists h, []. rewrite nonempty_trucks_nil.
      split; [reflexivity | constructor].
    - destruct (Z.leb_spec num_trucks 0); [lia |].
      rewrite bins_per_truck_nat by lia. fold n. fold k.
      destruct (truck_loop_ok now us (b :: bins) n k (seq 0 n) Hus h [] Hoff)
        as (h' & plans & El & Ef).
      exists h', plans. split; [exact El | exact Ef]. }
  destruct Hex as (h' & plans & Eo & Ef).
  pose proof (truck_slices_concat bins n k Hn') as Hc.
  assert (Hp : Permutation (concat (map Route.stops plans)) bins).
  { rewrite <- Hc. unfold truck_slices. apply plans_concat_perm. exact Ef. }
  exists h', plans. split; [exact Eo |]. split; [exact Ef |].
  split; [exact Hc |]. split; [exact Hp |].
  intros Hnd. eapply Permutation_NoDup; [apply Permutation_sym; exact Hp |].
  exact Hnd.
Qed.

(** Ten points over three trucks: slices of 3, 3 and 4 bins. *)
Lemma truck_slices_ten_over_three :
  map (@length nat) (truck_slices (seq 0 10) 3 (10 / 3)) = [3; 3; 4]%nat.
Proof.
  reflexivity.
Qed.

(** More trucks than bins, away from the depot: one plan, that of the
    last truck, with every input point. *)
Lemma allocation_more_trucks_than_bins (now : R) (us : nat -> R) (h : heap)
  (bins : list loc) (num_trucks : Z) :
  bins <> [] ->
  (Z.of_nat (length bins) < num_trucks)%Z ->
  (forall j, us j <> 0) ->
  off_depot h bins ->
  exists h' m,
    optimize_multi_truck_routes now us h bins num_trucks = (h', Ok [m]) /\
    Permutation (Route.stops m) bins /\
    Route.truck_id m
    = Some ("truck_" ++ str_of_nat (Z.to_nat num_trucks))%string.
Proof.
  intros Hne Hlt Hus Hoff.
  destruct (allocation_partition now us h bins num_trucks)
    as (h' & plans & Eo & Ef & _); [lia | exact Hus | exact Hoff |].
  rewrite Nat.div_small in Ef by lia.
  destruct (nonempty_trucks_last bins (Z.to_nat num_trucks) Hne) as [El Eb];
    [lia |].
  rewrite El in Ef.
  inversion Ef as [| m i plans' ids' Hm Hrest]; subst.
  inversion Hrest; subst.
  destruct Hm as [Hp Ht]. rewrite Eb in Hp.
  exists h', m. split; [exact Eo |]. split; [exact Hp |].
  rewrite Ht. repeat f_equal. lia.
Qed.

(** ** A bin on the depot *)

(** Claim C4 at the input that breaks it.  For the single bin BIN_001
    of the sample data, which stands exactly on the depot, and one
    truck, the allocation returns no partition: the closed walk has
    length 0, the fuel-savings quotient divides by zero and the call
    raises [ZeroDivisionError]. *)
Theorem allocation_raises_for_bin_on_depot (now : R) (us : nat -> R) :
  optimize_multi_truck_routes now us sample_heap [0%nat] 1
  = (sample_heap, Raise ZeroDivisionError).
Proof.
  unfold optimize_multi_truck_routes.
  change (1 <=? 0)%Z with false. cbv iota.
  change (Z.to_nat (Z.of_nat (length [0%nat]) / 1)) with 1%nat.
  change (Z.to_nat 1) with 1%nat.
  change (seq 0 1) with [0%nat].
  unfold truck_loop.
  change (truck_bins_of [0%nat] 1 1 0) with [0%nat].
  rewrite calculate_optimal_route_raise; [reflexivity | discriminate |].
  change (nearest_neighbor_algorithm sample_heap [0%nat]) with [0%nat].
  apply closed_walk_depot.
Qed.

(** Claim C10 at the input that breaks it.  For the single bin BIN_001
    of the sample data, on the depot, and two trucks (more trucks than
    bins), the allocation returns no route for the last truck: the call
    raises [ZeroDivisionError]. *)
Theorem allocation_last_truck_raises_for_bin_on_depot (now : R)
  (us : nat -> R) :
  optimize_multi_truck_routes now us sample_heap [0%nat] 2
  = (sample_heap, Raise ZeroDivisionError).
Proof.
  unfold optimize_multi_truck_routes.
  change (2 <=? 0)%Z with false. cbv iota.
  change (Z.to_nat (Z.of_nat (length [0%nat]) / 2)) with 0%nat.
  change (Z.to_nat 2) with 2%nat.
  change (seq 0 2) with [0%nat; 1%nat].
  unfold truck_loop.
  change (truck_bins_of [0%nat] 2 0 0) with (@nil nat).
  change (truck_bins_of [0%nat] 2 0 1) with [0%nat].
  cbv iota.
  rewrite calculate_optimal_route_raise; [reflexivity | discriminate |].
  change (nearest_neighbor_algorithm sample_heap [0%nat]) with [0%nat].
  apply closed_walk_depot.
Qed.

(** * Further properties of the optimizer *)

(** ** More on rounding *)

Lemma py_round_lower (x : R) (n : Z) :
  IZR n - 1 / 2 < x -> (n <= py_round x)%Z.
Proof.
  intros H. pose proof (py_round_near x) as Hn.
  assert (Hlt : (n - 1 < py_round x)%Z).
  { apply lt_IZR. rewrite minus_IZR. lra. }
  lia.
Qed.

Lemma py_round_upper (x : R) (n : Z) :
  x < IZR n + 1 / 2 -> (py_round x <= n)%Z.
Proof.
  intros H. pose proof (py_round_near x) as Hn.
  assert (Hlt : (py_round x < n + 1)%Z).
  { apply lt_IZR. rewrite plus_IZR. lra. }
  lia.
Qed.

Lemma py_round_mono (x y : R) : x <= y -> (py_round x <= py_round y)%Z.
Proof.
  intros Hxy.
  destruct (Z_le_gt_dec (py_round x) (py_round y)) as [Hle | Hgt];
    [exact Hle |].
  exfalso.
  pose proof (py_round_near x) as Hx. pose proof (py_round_near y) as Hy.
  assert (Hz : (py_round y + 1 <= py_round x)%Z) by lia.
  apply IZR_le in Hz. rewrite plus_IZR in Hz.
  assert (E : x = y) by lra.
  subst y. lia.
Qed.

Lemma py_round2_mono (x y : R) : x <= y -> py_round2 x <= py_round2 y.
Proof.
  intros Hxy. unfold py_round2.
  assert (H : IZR (py_round (x * 100)) <= IZR (py_round (y * 100))).
  { apply IZR_le. apply py_round_mono. lra. }
  lra.
Qed.

Lemma py_round2_nonneg (x : R) : 0 <= x -> 0 <= py_round2 x.
Proof.
  intros Hx. unfold py_round2.
  assert (0 <= IZR (py_round (x * 100))).
  { apply IZR_le. apply py_round_nonneg. lra. }
  lra.
Qed.

(** ** More on the haversine distance *)

Lemma asin_pos (x : R) : 0 < x -> 0 < asin x.
Proof.
  intros Hx.
  destruct (Rle_dec 1 x) as [H1 | H1].
  - unfold asin. destruct (Rle_dec x (-1)); [lra |].
    destruct (Rle_dec 1 x); [| lra].
    pose proof PI_RGT_0. lra.
  - rewrite asin_atan by lra.
    rewrite <- atan_0. apply atan_increasing.
    apply Rdiv_lt_0_compat; [lra |].
    apply sqrt_lt_R0. unfold Rsqr. nra.
Qed.

Lemma sin_zero_near_zero (x : R) : - PI < x < PI -> sin x = 0 -> x = 0.
Proof.
  intros Hx Hs.
  destruct (Rtotal_order x 0) as [Hneg | [Hz | Hpos]].
  - assert (H : 0 < sin (- x)) by (apply sin_gt_0; lra).
    rewrite sin_neg in H. lra.
  - exact Hz.
  - assert (H : 0 < sin x) by (apply sin_gt_0; lra). lra.
Qed.

Lemma radians_lat_range (x : R) :
  -90 < x < 90 -> - (PI / 2) < radians x < PI / 2.
Proof.
  intros Hx. unfold radians. pose proof PI_RGT_0. split; nra.
Qed.

Lemma haversine_a_zero (p q : coord) :
  -90 < fst p < 90 -> -90 < fst q < 90 ->
  -360 < snd q - snd p < 360 ->
  haversine_a p q = 0 -> p = q.
Proof.
  intros Hp Hq Hl Ha. unfold haversine_a in Ha.
  pose proof (radians_lat_range _ Hp) as Rp.
  pose proof (radians_lat_range _ Hq) as Rq.
  assert (C1 : 0 < cos (radians (fst p))) by (apply cos_gt_0; lra).
  assert (C2 : 0 < cos (radians (fst q))) by (apply cos_gt_0; lra).
  set (s1 := sin ((radians (fst q) - radians (fst p)) / 2)) in *.
  set (s2 := sin ((radians (snd q) - radians (snd p)) / 2)) in *.
  assert (C : 0 < cos (radians (fst p)) * cos (radians (fst q)))
    by (apply Rmult_lt_0_compat; assumption).
  set (c := cos (radians (fst p)) * cos (radians (fst q))) in *.
  replace (s1 ^ 2) with (s1 * s1) in Ha by ring.
  replace (s2 ^ 2) with (s2 * s2) in Ha by ring.
  assert (Q1 : 0 <= s1 * s1) by nra.
  assert (Q2 : 0 <= s2 * s2) by nra.
  assert (Q3 : 0 <= c * (s2 * s2)) by (apply Rmult_le_pos; lra).
  assert (S1 : s1 = 0) by nra.
  assert (S2 : s2 = 0).
  { assert (Z2 : c * (s2 * s2) = 0) by lra.
    apply Rmult_integral in Z2. destruct Z2 as [Z2 | Z2]; [lra | nra]. }
  pose proof PI_RGT_0 as Hpi.
  apply sin_zero_near_zero in S1; [| lra].
  apply sin_zero_near_zero in S2; [| unfold radians; split; nra].
  unfold radians in S1, S2.
  destruct p as [p1 p2], q as [q1 q2]. simpl in *.
  f_equal; nra.
Qed.

Lemma calculate_distance_zero (p q : coord) :
  -90 < fst p < 90 -> -90 < fst q < 90 ->
  -360 < snd q - snd p < 360 ->
  calculate_distance p q = 0 -> p = q.
Proof.
  intros Hp Hq Hl Hd. apply haversine_a_zero; try assumption.
  pose proof (haversine_a_range p q) as [Ha _].
  destruct (Req_dec_T (haversine_a p q) 0) as [E | E]; [exact E |].
  exfalso. unfold calculate_distance in Hd.
  assert (Hs : 0 < sqrt (haversine_a p q)) by (apply sqrt_lt_R0; lra).
  pose proof (asin_pos _ Hs). lra.
Qed.

(** A bin with regular coordinates is at distance zero from the depot
    only when it stands on it. *)
Lemma distance_to_depot_zero (p : coord) :
  regular_geopoint p ->
  calculate_distance base_location p = 0 -> p = base_location.
Proof.
  intros [Hlat Hlon] Hd. symmetry.
  apply calculate_distance_zero; try exact Hd.
  - unfold base_location. simpl. lra.
  - exact Hlat.
  - unfold base_location. simpl. lra.
Qed.

(** X1.  The haversine distance between any two points lies between 0 and
    half the circumference of the Earth, [6371 * PI] kilometres. *)
Theorem calculate_distance_bounded (p q : coord) :
  0 <= calculate_distance p q <= 6371 * PI.
Proof.
  split; [apply calculate_distance_nonneg |].
  unfold calculate_distance.
  pose proof (asin_bound (sqrt (haversine_a p q))) as [_ H]. lra.
Qed.

(** ** When the fuel-savings quotient divides by zero *)

Lemma regular_base_location : regular_geopoint base_location.
Proof.
  unfold regular_geopoint, base_location. simpl. lra.
Qed.

Lemma path_length_zero_on_depot (pts : list coord) :
  (forall p, In p pts -> regular_geopoint p) ->
  path_length base_location pts = 0 ->
  forall p, In p pts -> p = base_location.
Proof.
  induction pts as [| q pts IH]; intros Hreg Hz p Hp.
  - destruct Hp.
  - simpl in Hz.
    pose proof (calculate_distance_nonneg base_location q) as Hd.
    pose proof (path_length_nonneg pts q) as Hl.
    assert (Eq : q = base_location).
    { apply distance_to_depot_zero; [apply Hreg; left; reflexivity | lra]. }
    destruct Hp as [Hp | Hp]; [congruence |].
    apply IH; try assumption.
    + intros r Hr. apply Hreg. right. exact Hr.
    + rewrite Eq in Hl, Hz. rewrite calculate_distance_refl in Hz. lra.
Qed.

Lemma path_length_on_depot (pts : list coord) :
  (forall p, In p pts -> p = base_location) ->
  path_length base_location pts = 0.
Proof.
  induction pts as [| q pts IH]; intros Hall; simpl.
  - reflexivity.
  - rewrite (Hall q (or_introl eq_refl)), calculate_distance_refl.
    rewrite IH; [lra |]. intros r Hr. apply Hall. right. exact Hr.
Qed.

Lemma closed_walk_zero_iff (h : heap) (route : list loc) :
  (forall b, In b route -> regular_geopoint (Bin.coordinates (h b))) ->
  (closed_walk_length h route = 0 <-> all_on_depot h route).
Proof.
  intros Hreg. unfold closed_walk_length, all_on_depot. split.
  - intros Hz b Hb.
    assert (Hpts : forall p,
               In p (map (fun b => Bin.coordinates (h b)) route
                     ++ [base_location]) ->
               regular_geopoint p).
    { intros p Hp. apply in_app_or in Hp. destruct Hp as [Hp | [Hp | []]].
      - apply in_map_iff in Hp. destruct Hp as (b' & <- & Hb').
        apply Hreg. exact Hb'.
      - subst p. apply regular_base_location. }
    apply (path_length_zero_on_depot _ Hpts Hz).
    apply in_or_app. left. apply in_map_iff. exists b. auto.
  - intros Hall. apply path_length_on_depot.
    intros p Hp. apply in_app_or in Hp. destruct Hp as [Hp | [Hp | []]].
    + apply in_map_iff in Hp. destruct Hp as (b & <- & Hb).
      apply Hall. exact Hb.
    + auto.
Qed.

Lemma all_on_depot_perm (h : heap) (l l' : list loc) :
  Permutation l l' -> all_on_depot h l -> all_on_depot h l'.
Proof.
  intros P H b Hb. apply H.
  eapply Permutation_in; [apply Permutation_sym; exact P | exact Hb].
Qed.

(** X4.  For a non-empty list of bins with regular coordinates,
    [calculate_optimal_route] raises [ZeroDivisionError] exactly when
    every bin stands on the depot, and then leaves the records as they
    were; in every other case it returns a route. *)
Theorem calculate_optimal_route_raises_iff_on_depot (now u : R) (h : heap)
  (bins : list loc) :
  bins <> [] -> u <> 0 ->
  (forall b, In b bins -> regular_geopoint (Bin.coordinates (h b))) ->
  (all_on_depot h bins ->
   calculate_optimal_route now u h bins = (h, Raise ZeroDivisionError)) /\
  (~ all_on_depot h bins ->
   exists h' m, calculate_optimal_route now u h bins = (h', Ok m)).
Proof.
  intros Hne Hu Hreg.
  pose proof (nearest_neighbor_perm h bins) as P.
  assert (Hreg' : forall b, In b (nearest_neighbor_algorithm h bins) ->
                            regular_geopoint (Bin.coordinates (h b))).
  { intros b Hb. apply Hreg. eapply Permutation_in; [exact P | exact Hb]. }
  pose proof (closed_walk_zero_iff h _ Hreg') as Hiff.
  split.
  - intros Hall. apply calculate_optimal_route_raise; [exact Hne |].
    apply Hiff. eapply all_on_depot_perm; [apply Permutation_sym; exact P |].
    exact Hall.
  - intros Hnot.
    destruct (calculate_optimal_route_ok now u h bins Hne Hu)
      as (rm & t & _ & _ & _ & E).
    + intros Hz. apply Hnot. apply Hiff in Hz.
      eapply all_on_depot_perm; [exact P | exact Hz].
    + eexists. eexists. exact E.
Qed.

Lemma calculate_optimal_route_raises_iff_on_depot_witness :
  [0%nat] <> [] /\ 1.25 <> 0 /\
  (forall b, In b [0%nat] ->
     regular_geopoint (Bin.coordinates (sample_heap b))) /\
  (all_on_depot sample_heap [0%nat] ->
   calculate_optimal_route 0 1.25 sample_heap [0%nat]
   = (sample_heap, Raise ZeroDivisionError)).
Proof.
  assert (H1 : [0%nat] <> []) by discriminate.
  assert (H2 : 1.25 <> 0) by lra.
  assert (H3 : forall b, In b [0%nat] ->
                 regular_geopoint (Bin.coordinates (sample_heap b))).
  { intros b [<- | []]. apply regular_base_location. }
  split; [exact H1 |]. split; [exact H2 |]. split; [exact H3 |].
  apply (calculate_optimal_route_raises_iff_on_depot 0 1.25 sample_heap
           [0%nat] H1 H2 H3).
Defined.

(** ** The route dictionary of a successful call *)

Lemma leg_loop_coordinates (h : heap) (route : list loc) :
  forall s,
    leg_coordinates (fold_left (leg_step h) route s)
    = leg_coordinates s ++ map (fun b => Bin.coordinates (h b)) route.
Proof.
  induction route as [| b route IH]; intros s; simpl.
  - rewrite app_nil_r. reflexivity.
  - rewrite IH. simpl. rewrite <- app_assoc. reflexivity.
Qed.

(** Every key of the dictionary [calculate_route_metrics] returns for a
    non-empty route. *)
Lemma calculate_route_metrics_Ok_inv (u : R) (h : heap) (route : list loc)
  (m : Route.t) :
  route <> [] ->
  calculate_route_metrics u h route = Ok m ->
  closed_walk_length h route * u <> 0 /\
  Route.total_distance m = py_round1 (closed_walk_length h route) /\
  Route.estimated_time m
  = py_round (closed_walk_length h route / avg_speed_kmh * 60
              + IZR (Z.of_nat (length route) * service_time_minutes)) /\
  Route.fuel_savings m
  = py_round1 ((closed_walk_length h route * u - closed_walk_length h route)
               / (closed_walk_length h route * u) * 100) /\
  Route.coordinates m
  = base_location :: map (fun b => Bin.coordinates (h b)) route
    ++ [base_location] /\
  Route.stops m = route /\
  Route.travel_time m
  = Some (py_round (closed_walk_length h route / avg_speed_kmh * 60)) /\
  Route.service_time m
  = Some (Z.of_nat (length route) * service_time_minutes)%Z /\
  Route.route_efficiency_score m = None.
Proof.
  intros Hne Hm. unfold calculate_route_metrics in Hm.
  destruct route as [| b route]; [congruence |].
  cbv zeta in Hm. rewrite leg_loop_total_init, leg_loop_coordinates in Hm.
  set (L := closed_walk_length h (b :: route)) in *.
  unfold py_truediv in Hm.
  destruct (Req_dec_T (L * u) 0) as [E | E]; [discriminate |].
  injection Hm as <-. simpl. repeat split. exact E.
Qed.

(** What [calculate_optimal_route] returns when it returns, whatever the
    random draw. *)
Lemma calculate_optimal_route_Ok_inv (now u : R) (h h' : heap)
  (bins : list loc) (m : Route.t) :
  bins <> [] ->
  calculate_optimal_route now u h bins = (h', Ok m) ->
  exists rm t,
    calculate_route_metrics u h (nearest_neighbor_algorithm h bins) = Ok rm /\
    Route.travel_time rm = Some t /\
    m = add_summary now (length bins) rm /\
    h' = annotate_stops now t (length (Route.stops rm)) h 0 (Route.stops rm).
Proof.
  intros Hne Hm. unfold calculate_optimal_route in Hm.
  destruct bins as [| b bins]; [congruence |].
  set (r := nearest_neighbor_algorithm h (b :: bins)) in *.
  destruct (calculate_route_metrics u h r) as [rm | e] eqn:Erm;
    [| discriminate].
  assert (Hr : r <> []) by (apply nearest_neighbor_nonempty; discriminate).
  destruct (calculate_route_metrics_Ok_inv u h r rm Hr Erm)
    as (_ & _ & _ & _ & _ & _ & Et & _).
  rewrite Et in Hm. injection Hm as <- <-.
  eexists. eexists. split; [reflexivity |]. split; [exact Et |].
  split; reflexivity.
Qed.

(** X5.  A route returned for a non-empty list of bins visits exactly
    the bins it was given, each as often as it was given: its stops are
    a permutation of the input, [number_of_stops] is their count, and its
    polyline is the depot, the coordinates of the stops in visiting
    order, and the depot again, so two points more than there are
    stops. *)
Theorem calculate_optimal_route_shape (now u : R) (h h' : heap)
  (bins : list loc) (m : Route.t) :
  bins <> [] ->
  calculate_optimal_route now u h bins = (h', Ok m) ->
  Permutation (Route.stops m) bins /\
  Route.number_of_stops m = Some (Z.of_nat (length (Route.stops m))) /\
  Route.coordinates m
  = base_location
    :: map (fun b => Bin.coordinates (h b)) (Route.stops m)
    ++ [base_location] /\
  length (Route.coordinates m) = (length bins + 2)%nat /\
  Route.optimization_algorithm m = Some "nearest_neighbor"%string.
Proof.
  intros Hne Hm.
  destruct (calculate_optimal_route_Ok_inv now u h h' bins m Hne Hm)
    as (rm & t & Erm & _ & -> & _).
  pose proof (nearest_neighbor_nonempty h bins Hne) as Hr.
  destruct (calculate_route_metrics_Ok_inv u h _ rm Hr Erm)
    as (_ & _ & _ & _ & Ec & Es & _).
  pose proof (nearest_neighbor_perm h bins) as P.
  simpl. rewrite Es, Ec.
  split; [exact P |].
  split; [rewrite (Permutation_length P); reflexivity |].
  split; [reflexivity |].
  split; [| reflexivity].
  simpl. rewrite length_app, length_map, (Permutation_length P). simpl. lia.
Qed.

Lemma calculate_optimal_route_shape_witness :
  [2%nat] <> [] /\
  exists h' m,
    calculate_optimal_route 0 1.25 sample_heap [2%nat] = (h', Ok m) /\
    Permutation (Route.stops m) [2%nat] /\
    length (Route.coordinates m) = (length [2%nat] + 2)%nat.
Proof.
  assert (H1 : [2%nat] <> []) by discriminate.
  split; [exact H1 |].
  destruct (calculate_optimal_route_ok 0 1.25 sample_heap [2%nat])
    as (rm & t & _ & _ & _ & E).
  - exact H1.
  - lra.
  - pose proof closed_walk_near. simpl nearest_neighbor_algorithm. lra.
  - eexists. eexists. split; [exact E |].
    destruct (calculate_optimal_route_shape 0 1.25 sample_heap _ [2%nat] _
                H1 E) as (Hp & _ & _ & Hl & _).
    split; [exact Hp | exact Hl].
Defined.

(** X6.  In a route returned for a non-empty list of bins the service
    time is 8 minutes for each bin, the travel time is not negative, and
    the estimated time is at least the service time and differs from
    travel time plus service time by at most one minute (the two are
    rounded separately). *)
Theorem calculate_optimal_route_times (now u : R) (h h' : heap)
  (bins : list loc) (m : Route.t) :
  bins <> [] ->
  calculate_optimal_route now u h bins = (h', Ok m) ->
  exists travel,
    Route.travel_time m = Some travel /\
    Route.service_time m = Some (8 * Z.of_nat (length bins))%Z /\
    (0 <= travel)%Z /\
    (8 * Z.of_nat (length bins) <= Route.estimated_time m)%Z /\
    (-1 <= Route.estimated_time m - (travel + 8 * Z.of_nat (length bins))
     <= 1)%Z.
Proof.
  intros Hne Hm.
  destruct (calculate_optimal_route_Ok_inv now u h h' bins m Hne Hm)
    as (rm & t & Erm & _ & -> & _).
  pose proof (nearest_neighbor_nonempty h bins Hne) as Hr.
  destruct (calculate_route_metrics_Ok_inv u h _ rm Hr Erm)
    as (_ & _ & Ee & _ & _ & _ & Et & Es & _).
  pose proof (Permutation_length (nearest_neighbor_perm h bins)) as El.
  rewrite El in Ee, Es.
  set (L := closed_walk_length h (nearest_neighbor_algorithm h bins)) in *.
  assert (HL : 0 <= L) by apply closed_walk_length_nonneg.
  set (x := L / avg_speed_kmh * 60) in *.
  assert (Hx : 0 <= x).
  { unfold x, avg_speed_kmh. apply Rmult_le_pos; [| lra].
    apply Rmult_le_pos; [exact HL | lra]. }
  set (s := (Z.of_nat (length bins) * service_time_minutes)%Z) in *.
  assert (Hs : s = (8 * Z.of_nat (length bins))%Z).
  { unfold s, service_time_minutes. lia. }
  exists (py_round x). unfold add_summary.
  cbn [Route.travel_time Route.service_time Route.estimated_time].
  rewrite Et, Es, Ee, <- Hs.
  split; [reflexivity |]. split; [reflexivity |].
  split; [apply py_round_nonneg; exact Hx |].
  split; [apply py_round_lower; lra |].
  pose proof (py_round_near x) as N1.
  pose proof (py_round_near (x + IZR s)) as N2.
  split.
  - apply le_IZR. rewrite minus_IZR, plus_IZR. simpl IZR. lra.
  - apply le_IZR. rewrite minus_IZR, plus_IZR. simpl IZR. lra.
Qed.

Lemma calculate_optimal_route_times_witness :
  [2%nat] <> [] /\
  exists h' m,
    calculate_optimal_route 0 1.25 sample_heap [2%nat] = (h', Ok m) /\
    Route.service_time m = Some (8 * Z.of_nat (length [2%nat]))%Z /\
    (8 * Z.of_nat (length [2%nat]) <= Route.estimated_time m)%Z.
Proof.
  assert (H1 : [2%nat] <> []) by discriminate.
  split; [exact H1 |].
  destruct (calculate_optimal_route_ok 0 1.25 sample_heap [2%nat])
    as (rm & t & _ & _ & _ & E).
  - exact H1.
  - lra.
  - pose proof closed_walk_near. simpl nearest_neighbor_algorithm. lra.
  - eexists. eexists. split; [exact E |].
    destruct (calculate_optimal_route_times 0 1.25 sample_heap _ [2%nat] _
                H1 E) as (travel & _ & Hs & _ & He & _).
    split; [exact Hs | exact He].
Defined.

Lemma savings_ratio_bounds (u : R) :
  1.2 <= u <= 1.3 -> 1 / 6 <= (u - 1) / u <= 3 / 13.
Proof.
  intros Hu.
  assert (E : (u - 1) / u * u = u - 1) by (field; lra).
  set (q := (u - 1) / u) in *. split; nra.
Qed.

(** X7.  The fuel savings of a route returned for a non-empty list of
    bins lie between 16.7 and 23.1 percent, whatever the bins are.  The
    efficiency score is 70 plus the fuel savings and the environmental
    score 50 plus twice the fuel savings: neither upper clamp is ever
    reached. *)
Theorem calculate_optimal_route_savings (now u : R) (h h' : heap)
  (bins : list loc) (m : Route.t) :
  bins <> [] ->
  1.2 <= u <= 1.3 ->
  calculate_optimal_route now u h bins = (h', Ok m) ->
  16.7 <= Route.fuel_savings m <= 23.1 /\
  Route.route_efficiency_score m = Some (70 + Route.fuel_savings m) /\
  environmental_score (calculate_environmental_impact m)
  = 50 + Route.fuel_savings m * 2.
Proof.
  intros Hne Hu Hm.
  destruct (calculate_optimal_route_Ok_inv now u h h' bins m Hne Hm)
    as (rm & t & Erm & _ & -> & _).
  pose proof (nearest_neighbor_nonempty h bins Hne) as Hr.
  destruct (calculate_route_metrics_Ok_inv u h _ rm Hr Erm)
    as (HLu & _ & _ & Ef & _).
  set (L := closed_walk_length h (nearest_neighbor_algorithm h bins)) in *.
  assert (HL : L <> 0).
  { intros E. apply HLu. rewrite E. lra. }
  assert (Eq : (L * u - L) / (L * u) * 100 = (u - 1) / u * 100).
  { field. split; [lra | exact HL]. }
  rewrite Eq in Ef.
  pose proof (savings_ratio_bounds u Hu) as [B1 B2].
  assert (Hb : 16.7 <= Route.fuel_savings rm <= 23.1).
  { rewrite Ef. unfold py_round1.
    assert (H1 : (167 <= py_round ((u - 1) / u * 100 * 10))%Z)
      by (apply py_round_lower; simpl IZR; lra).
    assert (H2 : (py_round ((u - 1) / u * 100 * 10) <= 231)%Z)
      by (apply py_round_upper; simpl IZR; lra).
    apply IZR_le in H1, H2. simpl IZR in H1, H2. lra. }
  simpl. split; [exact Hb |]. split.
  - f_equal. apply Rmin_right. lra.
  - apply Rmin_right. lra.
Qed.

Lemma calculate_optimal_route_savings_witness :
  [2%nat] <> [] /\ 1.2 <= 1.25 <= 1.3 /\
  exists h' m,
    calculate_optimal_route 0 1.25 sample_heap [2%nat] = (h', Ok m) /\
    16.7 <= Route.fuel_savings m <= 23.1.
Proof.
  assert (H1 : [2%nat] <> []) by discriminate.
  assert (H2 : 1.2 <= 1.25 <= 1.3) by lra.
  split; [exact H1 |]. split; [exact H2 |].
  destruct (calculate_optimal_route_ok 0 1.25 sample_heap [2%nat])
    as (rm & t & _ & _ & _ & E).
  - exact H1.
  - lra.
  - pose proof closed_walk_near. simpl nearest_neighbor_algorithm. lra.
  - eexists. eexists. split; [exact E |].
    destruct (calculate_optimal_route_savings 0 1.25 sample_heap _ [2%nat] _
                H1 H2 E) as (Hb & _).
    exact Hb.
Defined.

(** ** The keys written into the stops *)

Lemma fold_left_Rplus_acc (l : list R) :
  forall a, fold_left Rplus l a = a + fold_left Rplus l 0.
Proof.
  induction l as [| x l IH]; intros a; simpl.
  - lra.
  - rewrite IH, (IH (0 + x)). lra.
Qed.

Lemma py_sum_repeat (c x : R) (i : nat) :
  py_sum (repeat c i ++ [x]) = c * INR i + x.
Proof.
  unfold py_sum. induction i as [| i IH].
  - simpl. lra.
  - change (repeat c (S i) ++ [x]) with (c :: (repeat c i ++ [x])).
    simpl fold_left. rewrite fold_left_Rplus_acc, IH, S_INR. lra.
Qed.

(** A stop that occurs once in the route carries, after the loop, the
    keys of its own position. *)
Lemma annotate_stops_nth (now : R) (t : Z) (n : nat) (stops : list loc) :
  forall (h : heap) (i j : nat) (l : loc),
    NoDup stops ->
    nth_error stops j = Some l ->
    Bin.sequence (annotate_stops now t n h i stops l)
    = Some (Z.of_nat (i + j) + 1)%Z /\
    Bin.estimated_time (annotate_stops now t n h i stops l)
    = Some service_time_minutes /\
    Bin.arrival_time (annotate_stops now t n h i stops l)
    = Some (now + (IZR service_time_minutes * INR (i + j)
                   + IZR t * (INR (i + j) / INR n))).
Proof.
  induction stops as [| s stops IH]; intros h i j l Hnd Hj.
  - destruct j; discriminate.
  - inversion Hnd as [| s' stops' Hnotin Hnd']; subst.
    destruct j as [| j].
    + simpl in Hj. injection Hj as ->. simpl annotate_stops.
      destruct (annotate_stops_frame now t n stops
                  (annotate_stop now t n h i l) (S i) l) as [_ Hsame].
      rewrite (Hsame Hnotin).
      unfold annotate_stop, heap_set. rewrite Nat.eqb_refl.
      cbn [Bin.sequence Bin.estimated_time Bin.arrival_time].
      rewrite py_sum_repeat, Nat.add_0_r. auto.
    + simpl in Hj. simpl annotate_stops.
      destruct (IH (annotate_stop now t n h i s) (S i) j l Hnd' Hj)
        as (I1 & I2 & I3).
      replace (i + S j)%nat with (S i + j)%nat by lia. auto.
Qed.

(** X8.  After a route has been returned for a non-empty list of
    distinct bins, the record of its [j]-th stop (counting from 0)
    carries [sequence = j + 1], [estimated_time = 8] and an arrival time
    of [now] plus [8 * j] minutes plus the share [j / n] of the rounded
    travel time; the first stop is reached at [now], with no travel time
    at all. *)
Theorem calculate_optimal_route_numbers_stops (now u : R) (h h' : heap)
  (bins : list loc) (m : Route.t) (j : nat) (l : loc) :
  bins <> [] ->
  NoDup bins ->
  calculate_optimal_route now u h bins = (h', Ok m) ->
  nth_error (Route.stops m) j = Some l ->
  Bin.sequence (h' l) = Some (Z.of_nat j + 1)%Z /\
  Bin.estimated_time (h' l) = Some 8%Z /\
  (exists travel,
     Route.travel_time m = Some travel /\
     Bin.arrival_time (h' l)
     = Some (now + (8 * INR j
                    + IZR travel * (INR j / INR (length bins))))) /\
  (j = 0%nat -> Bin.arrival_time (h' l) = Some now).
Proof.
  intros Hne Hnd Hm Hj.
  destruct (calculate_optimal_route_Ok_inv now u h h' bins m Hne Hm)
    as (rm & t & Erm & Et & -> & ->).
  pose proof (nearest_neighbor_nonempty h bins Hne) as Hr.
  destruct (calculate_route_metrics_Ok_inv u h _ rm Hr Erm)
    as (_ & _ & _ & _ & _ & Es & _).
  pose proof (nearest_neighbor_perm h bins) as P.
  simpl in Hj. rewrite Es in Hj |- *.
  assert (Hnd' : NoDup (nearest_neighbor_algorithm h bins)).
  { eapply Permutation_NoDup; [apply Permutation_sym; exact P | exact Hnd]. }
  destruct (annotate_stops_nth now t
              (length (nearest_neighbor_algorithm h bins))
              (nearest_neighbor_algorithm h bins) h 0 j l Hnd' Hj)
    as (A1 & A2 & A3).
  rewrite (Permutation_length P) in A1, A2, A3 |- *.
  simpl Nat.add in A1, A3.
  unfold service_time_minutes in A2, A3.
  split; [exact A1 |]. split; [exact A2 |]. split.
  - exists t. split; [exact Et | exact A3].
  - intros ->. rewrite A3. simpl INR. f_equal. unfold Rdiv. ring.
Qed.

Lemma calculate_optimal_route_numbers_stops_witness :
  [2%nat] <> [] /\ NoDup [2%nat] /\
  exists h' m,
    calculate_optimal_route 0 1.25 sample_heap [2%nat] = (h', Ok m) /\
    nth_error (Route.stops m) 0 = Some 2%nat /\
    Bin.sequence (h' 2%nat) = Some (Z.of_nat 0 + 1)%Z.
Proof.
  assert (H1 : [2%nat] <> []) by discriminate.
  assert (H2 : NoDup [2%nat]).
  { constructor; [intros [] | constructor]. }
  split; [exact H1 |]. split; [exact H2 |].
  destruct (calculate_optimal_route_ok 0 1.25 sample_heap [2%nat])
    as (rm & t & _ & Es & _ & E).
  - exact H1.
  - lra.
  - pose proof closed_walk_near. simpl nearest_neighbor_algorithm. lra.
  - eexists. eexists. split; [exact E |].
    assert (H3 : nth_error
                   (Route.stops (add_summary 0 (length [2%nat]) rm)) 0
                 = Some 2%nat).
    { simpl. rewrite Es. reflexivity. }
    split; [exact H3 |].
    destruct (calculate_optimal_route_numbers_stops 0 1.25 sample_heap _
                [2%nat] _ 0 2%nat H1 H2 E H3) as (Hs & _).
    exact Hs.
Defined.

(** ** Routing reads the coordinates only *)

Lemma min_by_ext {A : Type} (key key' : A -> R) (xs : list A) :
  (forall x, key x = key' x) ->
  forall best, min_by key best xs = min_by key' best xs.
Proof.
  intros Hk. induction xs as [| x xs IH]; intros best; simpl.
  - reflexivity.
  - rewrite (Hk x), (Hk best).
    destruct (Rlt_dec (key' x) (key' best)); apply IH.
Qed.

Lemma nn_step_same_coordinates (h h' : heap) (s : nn_state) :
  same_coordinates h h' -> nn_step h s = nn_step h' s.
Proof.
  intros Hc. unfold nn_step.
  destruct (unvisited_bins s) as [| b0 rest]; [reflexivity |].
  cbv zeta.
  assert (Hk : forall x, nn_key h (current_location s) x
                         = nn_key h' (current_location s) x).
  { intros x. unfold nn_key. rewrite (Hc x). reflexivity. }
  rewrite <- (min_by_ext _ _ rest Hk b0).
  set (m := min_by (nn_key h (current_location s)) b0 rest).
  destruct (min_by_first (nn_key h (current_location s)) b0 rest)
    as (pre & post & E & H1 & _).
  fold m in E, H1.
  rewrite (Hc m). f_equal. rewrite E.
  rewrite !list_remove_first; [reflexivity | |].
  - intros y Hy. destruct (py_eq h' y m) eqn:Ey; [| reflexivity].
    apply (py_eq_key h' (current_location s)) in Ey.
    specialize (H1 y Hy). rewrite !Hk in H1. lra.
  - intros y Hy. destruct (py_eq h y m) eqn:Ey; [| reflexivity].
    apply (py_eq_key h (current_location s)) in Ey.
    specialize (H1 y Hy). lra.
Qed.

Lemma nn_iter_same_coordinates (h h' : heap) (k : nat) :
  same_coordinates h h' -> forall s, nn_iter k h s = nn_iter k h' s.
Proof.
  intros Hc. induction k as [| k IH]; intros s; simpl.
  - reflexivity.
  - rewrite (nn_step_same_coordinates h h' s Hc). apply IH.
Qed.

Lemma closed_walk_same_coordinates (h h' : heap) (route : list loc) :
  same_coordinates h h' ->
  closed_walk_length h route = closed_walk_length h' route.
Proof.
  intros Hc. unfold closed_walk_length. f_equal. f_equal.
  apply map_ext. intros b. apply Hc.
Qed.

Lemma annotate_stops_same_coordinates (now : R) (t : Z) (n : nat) (h : heap)
  (i : nat) (stops : list loc) :
  same_coordinates h (annotate_stops now t n h i stops).
Proof.
  intros l.
  destruct (annotate_stops_frame now t n stops h i l)
    as [(_ & _ & _ & Ec & _) _].
  symmetry. exact Ec.
Qed.

Lemma nearest_neighbor_same_coordinates (h h' : heap) (bins : list loc) :
  same_coordinates h h' ->
  nearest_neighbor_algorithm h bins = nearest_neighbor_algorithm h' bins.
Proof.
  intros Hc. rewrite !nearest_neighbor_iter.
  rewrite (nn_iter_same_coordinates h h' (length bins) Hc). reflexivity.
Qed.

(** X9.  The sequencer reads nothing of a bin but its coordinates: on
    two heaps that hold the same coordinates it returns the same route,
    of the same length, whatever the other keys of the records are. *)
Theorem nearest_neighbor_reads_coordinates_only (h h' : heap)
  (bins : list loc) :
  same_coordinates h h' ->
  nearest_neighbor_algorithm h bins = nearest_neighbor_algorithm h' bins /\
  closed_walk_length h (nearest_neighbor_algorithm h bins)
  = closed_walk_length h' (nearest_neighbor_algorithm h' bins).
Proof.
  intros Hc. rewrite <- (nearest_neighbor_same_coordinates h h' bins Hc).
  split; [reflexivity | apply closed_walk_same_coordinates; exact Hc].
Qed.

Lemma nearest_neighbor_reads_coordinates_only_witness :
  same_coordinates sample_heap
    (annotate_stops 0 3 2 sample_heap 0 [1%nat; 0%nat]) /\
  nearest_neighbor_algorithm sample_heap [0%nat; 1%nat; 2%nat]
  = nearest_neighbor_algorithm
      (annotate_stops 0 3 2 sample_heap 0 [1%nat; 0%nat])
      [0%nat; 1%nat; 2%nat].
Proof.
  assert (H : same_coordinates sample_heap
                (annotate_stops 0 3 2 sample_heap 0 [1%nat; 0%nat]))
    by apply annotate_stops_same_coordinates.
  split; [exact H |].
  apply (proj1 (nearest_neighbor_reads_coordinates_only sample_heap
                  (annotate_stops 0 3 2 sample_heap 0 [1%nat; 0%nat])
                  [0%nat; 1%nat; 2%nat] H)).
Defined.

(** ** Optimizing the same bins again *)

Lemma annotate_stops_rewrites (stops : list loc) :
  forall (now now' : R) (t t' : Z) (n n' : nat) (h ha : heap) (i : nat)
         (l : loc),
    In l stops ->
    Bin.sequence (annotate_stops now t n h i stops l)
    = Bin.sequence (annotate_stops now' t' n' ha i stops l) /\
    Bin.estimated_time (annotate_stops now t n h i stops l)
    = Bin.estimated_time (annotate_stops now' t' n' ha i stops l).
Proof.
  induction stops as [| s stops IH]; intros now now' t t' n n' h ha i l Hin.
  - destruct Hin.
  - simpl annotate_stops.
    destruct (in_dec Nat.eq_dec l stops) as [Hl | Hl].
    + apply IH. exact Hl.
    + destruct Hin as [-> | Hin]; [| contradiction].
      destruct (annotate_stops_frame now t n stops
                  (annotate_stop now t n h i l) (S i) l) as [_ F1].
      destruct (annotate_stops_frame now' t' n' stops
                  (annotate_stop now' t' n' ha i l) (S i) l) as [_ F2].
      rewrite (F1 Hl), (F2 Hl).
      unfold annotate_stop, heap_set. rewrite Nat.eqb_refl. simpl. auto.
Qed.

(** X10.  Optimizing the same non-empty list again, on the records the
    first call has written into, succeeds whenever the first call did
    and gives the same route: the same stops in the same order, the same
    total distance, polyline and estimated time, and the same sequence
    number in every record. *)
Theorem calculate_optimal_route_again (now now' u u' : R) (h h1 : heap)
  (bins : list loc) (m1 : Route.t) :
  bins <> [] ->
  u' <> 0 ->
  calculate_optimal_route now u h bins = (h1, Ok m1) ->
  exists h2 m2,
    calculate_optimal_route now' u' h1 bins = (h2, Ok m2) /\
    Route.stops m2 = Route.stops m1 /\
    Route.total_distance m2 = Route.total_distance m1 /\
    Route.coordinates m2 = Route.coordinates m1 /\
    Route.estimated_time m2 = Route.estimated_time m1 /\
    (forall l, Bin.sequence (h2 l) = Bin.sequence (h1 l)).
Proof.
  intros Hne Hu' Hm.
  destruct (calculate_optimal_route_Ok_inv now u h h1 bins m1 Hne Hm)
    as (rm1 & t1 & Erm1 & _ & -> & ->).
  pose proof (nearest_neighbor_nonempty h bins Hne) as Hr.
  destruct (calculate_route_metrics_Ok_inv u h _ rm1 Hr Erm1)
    as (HLu & Ed1 & Ee1 & _ & Ec1 & Es1 & _).
  set (h1 := annotate_stops now t1 (length (Route.stops rm1)) h 0
               (Route.stops rm1)) in *.
  assert (Hc : same_coordinates h h1)
    by apply annotate_stops_same_coordinates.
  pose proof (nearest_neighbor_same_coordinates h h1 bins Hc) as En.
  pose proof (closed_walk_same_coordinates h h1
                (nearest_neighbor_algorithm h bins) Hc) as EL.
  destruct (calculate_optimal_route_ok now' u' h1 bins Hne Hu')
    as (rm2 & t2 & Erm2 & Es2 & _ & E2).
  { rewrite <- En, <- EL. intros Z. apply HLu. rewrite Z. lra. }
  rewrite <- En in Erm2, Es2.
  destruct (calculate_route_metrics_Ok_inv u' h1 _ rm2 Hr Erm2)
    as (_ & Ed2 & Ee2 & _ & Ec2 & _).
  rewrite <- EL in Ed2, Ee2.
  eexists. eexists. split; [exact E2 |]. simpl.
  split; [congruence |]. split; [congruence |]. split.
  - rewrite Ec1, Ec2. f_equal. f_equal. apply map_ext.
    intros b. symmetry. apply Hc.
  - split; [congruence |].
    intros l. rewrite Es2.
    destruct (in_dec Nat.eq_dec l (nearest_neighbor_algorithm h bins))
      as [Hl | Hl].
    + unfold h1 at 2. rewrite Es1.
      apply annotate_stops_rewrites. exact Hl.
    + destruct (annotate_stops_frame now' t2
                  (length (nearest_neighbor_algorithm h bins))
                  (nearest_neighbor_algorithm h bins) h1 0 l) as [_ F].
      rewrite (F Hl). reflexivity.
Qed.

Lemma calculate_optimal_route_again_witness :
  [2%nat] <> [] /\ 1.3 <> 0 /\
  exists h1 m1 h2 m2,
    calculate_optimal_route 0 1.25 sample_heap [2%nat] = (h1, Ok m1) /\
    calculate_optimal_route 5 1.3 h1 [2%nat] = (h2, Ok m2) /\
    Route.stops m2 = Route.stops m1 /\
    Route.total_distance m2 = Route.total_distance m1.
Proof.
  assert (H1 : [2%nat] <> []) by discriminate.
  assert (H2 : 1.3 <> 0) by lra.
  split; [exact H1 |]. split; [exact H2 |].
  destruct (calculate_optimal_route_ok 0 1.25 sample_heap [2%nat])
    as (rm & t & _ & _ & _ & E).
  - exact H1.
  - lra.
  - pose proof closed_walk_near. simpl nearest_neighbor_algorithm. lra.
  - destruct (calculate_optimal_route_again 0 5 1.25 1.3 sample_heap _
                [2%nat] _ H1 H2 E) as (h2 & m2 & E2 & Hs & Hd & _).
    eexists. eexists. exists h2, m2.
    split; [exact E |]. split; [exact E2 |]. split; [exact Hs | exact Hd].
Defined.

(** ** More on the allocation *)

Lemma filter_all {A : Type} (f : A -> bool) (l : list A) :
  (forall x, In x l -> f x = true) -> filter f l = l.
Proof.
  induction l as [| x l IH]; intros H; simpl.
  - reflexivity.
  - rewrite (H x (or_introl eq_refl)). f_equal. apply IH.
    intros y Hy. apply H. right. exact Hy.
Qed.

(** With at least as many bins as trucks every truck receives bins. *)
Lemma nonempty_trucks_all (bins : list loc) (n : nat) :
  (0 < n <= length bins)%nat ->
  nonempty_trucks bins n (length bins / n) (seq 0 n) = seq 0 n.
Proof.
  intros Hn. unfold nonempty_trucks. apply filter_all.
  intros i Hi. apply in_seq in Hi.
  destruct (truck_slices_length bins n) as [Hk Hlast]; [lia |].
  assert (Hpos : (1 <= length bins / n)%nat).
  { apply Nat.div_le_lower_bound; lia. }
  destruct (Nat.eq_dec i (n - 1)) as [-> | Hne].
  - destruct (truck_bins_of bins n (length bins / n) (n - 1));
      [simpl in Hlast; lia | reflexivity].
  - specialize (Hk i ltac:(lia)).
    destruct (truck_bins_of bins n (length bins / n) i);
      [simpl in Hk; lia | reflexivity].
Qed.

Lemma off_depot_near (bins : list loc) :
  (forall b, In b bins -> (2 <= b)%nat) -> off_depot sample_heap bins.
Proof.
  intros Hb b Hin. specialize (Hb b Hin).
  assert (E : sample_heap b = bin_near).
  { destruct b as [| [| b]]; [lia | lia | reflexivity]. }
  rewrite E, distance_base_near. pose proof PI_RGT_0. lra.
Qed.

(** X11.  For every list of bins none of which is at distance zero from
    the depot and every [num_trucks > 0], the allocation returns
    routes: one plan for each truck that received bins, in the order of
    the trucks, each carrying its truck's identifier and visiting its
    truck's slice; the slices are contiguous and cover the input, and
    the stops of all plans together are a permutation of the input, so
    that no bin is routed twice when the input lists none twice. *)
Theorem allocation_partitions_input (now : R) (us : nat -> R) (h : heap)
  (bins : list loc) (num_trucks : Z) :
  (0 < num_trucks)%Z ->
  (forall j, us j <> 0) ->
  off_depot h bins ->
  exists h' plans,
    optimize_multi_truck_routes now us h bins num_trucks = (h', Ok plans) /\
    Forall2 (plan_of_truck bins (Z.to_nat num_trucks)
               (length bins / Z.to_nat num_trucks))
            plans
            (nonempty_trucks bins (Z.to_nat num_trucks)
               (length bins / Z.to_nat num_trucks)
               (seq 0 (Z.to_nat num_trucks))) /\
    concat (truck_slices bins (Z.to_nat num_trucks)
              (length bins / Z.to_nat num_trucks)) = bins /\
    Permutation (concat (map Route.stops plans)) bins /\
    (NoDup bins -> NoDup (concat (map Route.stops plans))).
Proof.
  apply allocation_partition.
Qed.

Lemma allocation_partitions_input_witness :
  (0 < 2)%Z /\ (forall j : nat, (fun _ : nat => 1.25) j <> 0) /\
  off_depot sample_heap [2%nat; 3%nat; 4%nat] /\
  exists h' plans,
    optimize_multi_truck_routes 0 (fun _ => 1.25) sample_heap
      [2%nat; 3%nat; 4%nat] 2 = (h', Ok plans) /\
    Permutation (concat (map Route.stops plans)) [2%nat; 3%nat; 4%nat].
Proof.
  assert (H1 : (0 < 2)%Z) by lia.
  assert (H2 : forall j : nat, (fun _ : nat => 1.25) j <> 0)
    by (intros j; lra).
  assert (H3 : off_depot sample_heap [2%nat; 3%nat; 4%nat]).
  { apply off_depot_near. intros b Hb. simpl in Hb. lia. }
  split; [exact H1 |]. split; [exact H2 |]. split; [exact H3 |].
  destruct (allocation_partitions_input 0 (fun _ => 1.25) sample_heap
              [2%nat; 3%nat; 4%nat] 2 H1 H2 H3)
    as (h' & plans & E & _ & _ & P & _).
  exists h', plans. split; [exact E | exact P].
Defined.

(** X12.  With at least as many bins as trucks, and no bin at distance
    zero from the depot, the allocation returns exactly [num_trucks]
    plans, the [i]-th one being that of truck [i], and every plan has at
    least [len(bins) // num_trucks] stops. *)
Theorem allocation_one_plan_per_truck (now : R) (us : nat -> R) (h : heap)
  (bins : list loc) (num_trucks : Z) :
  (0 < num_trucks <= Z.of_nat (length bins))%Z ->
  (forall j, us j <> 0) ->
  off_depot h bins ->
  exists h' plans,
    optimize_multi_truck_routes now us h bins num_trucks = (h', Ok plans) /\
    length plans = Z.to_nat num_trucks /\
    Forall2 (plan_of_truck bins (Z.to_nat num_trucks)
               (length bins / Z.to_nat num_trucks))
            plans (seq 0 (Z.to_nat num_trucks)) /\
    Forall (fun m => (length bins / Z.to_nat num_trucks
                      <= length (Route.stops m))%nat) plans.
Proof.
  intros Hn Hus Hoff.
  destruct (allocation_partition now us h bins num_trucks)
    as (h' & plans & E & Hf & _); [lia | exact Hus | exact Hoff |].
  set (n := Z.to_nat num_trucks) in *.
  rewrite nonempty_trucks_all in Hf by (unfold n; lia).
  exists h', plans. split; [exact E |]. split.
  - rewrite (Forall2_length Hf). apply length_seq.
  - split; [exact Hf |].
    destruct (truck_slices_length bins n) as [Hk Hlast]; [unfold n; lia |].
    assert (Hall : forall i, In i (seq 0 n) ->
              (length bins / n
               <= length (truck_bins_of bins n (length bins / n) i))%nat).
    { intros i Hi. apply in_seq in Hi.
      destruct (Nat.eq_dec i (n - 1)) as [-> | Hne].
      - rewrite Hlast. lia.
      - rewrite Hk by lia. lia. }
    clear E. revert Hall. induction Hf as [| m i plans ids Hm Hf IH];
      intros Hall.
    + constructor.
    + constructor.
      * destruct Hm as [Hp _]. rewrite (Permutation_length Hp).
        apply Hall. left. reflexivity.
      * apply IH. intros j Hj. apply Hall. right. exact Hj.
Qed.

Lemma allocation_one_plan_per_truck_witness :
  (0 < 2 <= Z.of_nat (length [2%nat; 3%nat; 4%nat]))%Z /\
  (forall j : nat, (fun _ : nat => 1.25) j <> 0) /\
  off_depot sample_heap [2%nat; 3%nat; 4%nat] /\
  exists h' plans,
    optimize_multi_truck_routes 0 (fun _ => 1.25) sample_heap
      [2%nat; 3%nat; 4%nat] 2 = (h', Ok plans) /\
    length plans = Z.to_nat 2.
Proof.
  assert (H1 : (0 < 2 <= Z.of_nat (length [2%nat; 3%nat; 4%nat]))%Z)
    by (simpl; lia).
  assert (H2 : forall j : nat, (fun _ : nat => 1.25) j <> 0)
    by (intros j; lra).
  assert (H3 : off_depot sample_heap [2%nat; 3%nat; 4%nat]).
  { apply off_depot_near. intros b Hb. simpl in Hb. lia. }
  split; [exact H1 |]. split; [exact H2 |]. split; [exact H3 |].
  destruct (allocation_one_plan_per_truck 0 (fun _ => 1.25) sample_heap
              [2%nat; 3%nat; 4%nat] 2 H1 H2 H3)
    as (h' & plans & E & Hl & _).
  exists h', plans. split; [exact E | exact Hl].
Defined.

(** X13.  With more trucks than bins, a non-empty list and no bin at
    distance zero from the depot, the allocation returns a single plan:
    that of the last truck, whose stops are a permutation of the whole
    input. *)
Theorem allocation_single_plan_for_last_truck (now : R) (us : nat -> R)
  (h : heap) (bins : list loc) (num_trucks : Z) :
  bins <> [] ->
  (Z.of_nat (length bins) < num_trucks)%Z ->
  (forall j, us j <> 0) ->
  off_depot h bins ->
  exists h' m,
    optimize_multi_truck_routes now us h bins num_trucks = (h', Ok [m]) /\
    Permutation (Route.stops m) bins /\
    Route.truck_id m
    = Some ("truck_" ++ str_of_nat (Z.to_nat num_trucks))%string.
Proof.
  apply allocation_more_trucks_than_bins.
Qed.

Lemma allocation_single_plan_for_last_truck_witness :
  [2%nat; 3%nat] <> [] /\
  (Z.of_nat (length [2%nat; 3%nat]) < 5)%Z /\
  (forall j : nat, (fun _ : nat => 1.25) j <> 0) /\
  off_depot sample_heap [2%nat; 3%nat] /\
  exists h' m,
    optimize_multi_truck_routes 0 (fun _ => 1.25) sample_heap
      [2%nat; 3%nat] 5 = (h', Ok [m]) /\
    Route.truck_id m = Some "truck_5"%string.
Proof.
  assert (H0 : [2%nat; 3%nat] <> []) by discriminate.
  assert (H1 : (Z.of_nat (length [2%nat; 3%nat]) < 5)%Z) by (simpl; lia).
  assert (H2 : forall j : nat, (fun _ : nat => 1.25) j <> 0)
    by (intros j; lra).
  assert (H3 : off_depot sample_heap [2%nat; 3%nat]).
  { apply off_depot_near. intros b Hb. simpl in Hb. lia. }
  split; [exact H0 |]. split; [exact H1 |]. split; [exact H2 |].
  split; [exact H3 |].
  destruct (allocation_single_plan_for_last_truck 0 (fun _ => 1.25)
              sample_heap [2%nat; 3%nat] 5 H0 H1 H2 H3)
    as (h' & m & E & _ & Ht).
  exists h', m. split; [exact E | exact Ht].
Defined.

(** X14.  For [num_trucks > 0] the bins of the trucks are contiguous
    slices that together make up the input in input order; every truck
    but the last gets [len(bins) // num_trucks] bins and the last one
    gets that many plus the remainder [len(bins) % num_trucks]. *)
Theorem truck_slices_sizes (bins : list loc) (num_trucks : Z) :
  (0 < num_trucks)%Z ->
  concat (truck_slices bins (Z.to_nat num_trucks)
            (Z.to_nat (Z.of_nat (length bins) / num_trucks))) = bins /\
  (forall i, (i < Z.to_nat num_trucks - 1)%nat ->
     Z.of_nat (length (truck_bins_of bins (Z.to_nat num_trucks)
                         (Z.to_nat (Z.of_nat (length bins) / num_trucks)) i))
     = (Z.of_nat (length bins) / num_trucks)%Z) /\
  Z.of_nat (length (truck_bins_of bins (Z.to_nat num_trucks)
                      (Z.to_nat (Z.of_nat (length bins) / num_trucks))
                      (Z.to_nat num_trucks - 1)))
  = (Z.of_nat (length bins) / num_trucks
     + Z.of_nat (length bins) mod num_trucks)%Z.
Proof.
  intros Hn.
  assert (Hn' : (0 < Z.to_nat num_trucks)%nat) by lia.
  rewrite bins_per_truck_nat by exact Hn.
  destruct (truck_slices_length bins (Z.to_nat num_trucks) Hn')
    as [Hk Hlast].
  assert (Ediv : Z.of_nat (length bins / Z.to_nat num_trucks)
                 = (Z.of_nat (length bins) / num_trucks)%Z).
  { rewrite Nat2Z.inj_div, Z2Nat.id by lia. reflexivity. }
  assert (Emod : Z.of_nat (length bins mod Z.to_nat num_trucks)
                 = (Z.of_nat (length bins) mod num_trucks)%Z).
  { rewrite Nat2Z.inj_mod, Z2Nat.id by lia. reflexivity. }
  split; [apply truck_slices_concat; exact Hn' |]. split.
  - intros i Hi. rewrite (Hk i Hi). exact Ediv.
  - rewrite Hlast, Nat2Z.inj_add, Ediv, Emod. reflexivity.
Qed.

Lemma truck_slices_sizes_witness :
  (0 < 3)%Z /\
  Z.of_nat (length (truck_bins_of (seq 0 10) (Z.to_nat 3)
                      (Z.to_nat (Z.of_nat (length (seq 0 10)) / 3))
                      (Z.to_nat 3 - 1)))
  = (Z.of_nat (length (seq 0 10)) / 3 + Z.of_nat (length (seq 0 10)) mod 3)%Z.
Proof.
  assert (H : (0 < 3)%Z) by lia.
  split; [exact H |].
  apply (proj2 (proj2 (truck_slices_sizes (seq 0 10) 3 H))).
Defined.

(** X15.  With one truck the allocation is single-route optimization:
    for a non-empty list it returns the one route
    [calculate_optimal_route] returns for the whole list (drawn with the
    first random factor), tagged as truck 1, leaves the records as that
    call leaves them, and raises what that call raises. *)
Theorem allocation_with_one_truck (now : R) (us : nat -> R) (h : heap)
  (bins : list loc) :
  bins <> [] ->
  optimize_multi_truck_routes now us h bins 1
  = match calculate_optimal_route now (us 0%nat) h bins with
    | (h', Ok m) => (h', Ok [add_truck 0 m])
    | (h', Raise e) => (h', Raise e)
    end.
Proof.
  intros Hne. unfold optimize_multi_truck_routes.
  destruct bins as [| b bins]; [congruence |].
  change (1 <=? 0)%Z with false. cbv iota.
  change (Z.to_nat 1) with 1%nat. change (seq 0 1) with [0%nat].
  unfold truck_loop.
  assert (E : truck_bins_of (b :: bins) 1
                (Z.to_nat (Z.of_nat (length (b :: bins)) / 1)) 0
              = b :: bins).
  { unfold truck_bins_of, slice_from. reflexivity. }
  rewrite E. change (length (@nil Route.t)) with 0%nat.
  destruct (calculate_optimal_route now (us 0%nat) h (b :: bins))
    as [h' [m | e]]; reflexivity.
Qed.

Lemma allocation_with_one_truck_witness :
  [0%nat] <> [] /\
  optimize_multi_truck_routes 0 (fun _ => 1.25) sample_heap [0%nat] 1
  = match calculate_optimal_route 0 1.25 sample_heap [0%nat] with
    | (h', Ok m) => (h', Ok [add_truck 0 m])
    | (h', Raise e) => (h', Raise e)
    end.
Proof.
  assert (H : [0%nat] <> []) by discriminate.
  split; [exact H |].
  apply (allocation_with_one_truck 0 (fun _ => 1.25) sample_heap [0%nat] H).
Defined.

(** ** Alternative routes *)

Lemma alternatives_loop_short (shuffle : nat -> list loc -> list loc)
  (us : nat -> R) (h : heap) (bins : list loc) (ids : list nat) :
  (length bins <= 1)%nat ->
  forall alts, alternatives_loop shuffle us h bins ids alts = Ok alts.
Proof.
  intros Hl. induction ids as [| i ids IH]; intros alts; simpl.
  - reflexivity.
  - destruct (Nat.ltb_spec 1 (length bins)); [lia | apply IH].
Qed.

Lemma alternatives_loop_ok (shuffle : nat -> list loc -> list loc)
  (us : nat -> R) (h : heap) (bins : list loc) (ids : list nat) :
  (1 < length bins)%nat ->
  (forall i l, Permutation (shuffle i l) l) ->
  (forall j, us j <> 0) ->
  off_depot h bins ->
  forall alts,
    exists new,
      alternatives_loop shuffle us h bins ids alts = Ok (alts ++ new) /\
      Forall2 (alternative_of bins) new ids.
Proof.
  intros Hl Hsh Hus Hoff. induction ids as [| i ids IH]; intros alts; simpl.
  - exists []. rewrite app_nil_r. split; [reflexivity | constructor].
  - destruct (Nat.ltb_spec 1 (length bins)); [| lia].
    set (r := nearest_neighbor_algorithm h (shuffle i bins)).
    assert (P : Permutation r bins).
    { eapply Permutation_trans; [apply nearest_neighbor_perm | apply Hsh]. }
    assert (Hr : r <> []).
    { intros E. rewrite E in P. apply Permutation_nil in P.
      rewrite P in Hl. simpl in Hl. lia. }
    destruct (calculate_route_metrics_ok (us i) h r Hr (Hus i))
      as (m & Em & _ & _ & Es & _ & Ee).
    { apply closed_walk_off_depot; [exact Hr |].
      intros b Hb. apply Hoff. eapply Permutation_in; [exact P | exact Hb]. }
    rewrite Em.
    match goal with
    | |- context [alternatives_loop _ _ _ _ _ (alts ++ [?a])] =>
        destruct (IH (alts ++ [a])) as (new & El & Ef);
        exists (a :: new)
    end.
    split.
    + rewrite El, <- app_assoc. reflexivity.
    + constructor; [| exact Ef].
      split; [reflexivity |]. simpl. rewrite Es. auto.
Qed.

(** X16.  A list of at most one bin has no alternative routes: whatever
    number of alternatives is asked for, [get_alternative_routes]
    returns the empty list and raises nothing, also for a bin on the
    depot. *)
Theorem get_alternative_routes_needs_two_bins
  (shuffle : nat -> list loc -> list loc) (us : nat -> R) (h : heap)
  (bins : list loc) (num_alternatives : Z) :
  (length bins <= 1)%nat ->
  get_alternative_routes shuffle us h bins num_alternatives = Ok [].
Proof.
  intros Hl. apply alternatives_loop_short. exact Hl.
Qed.

Lemma get_alternative_routes_needs_two_bins_witness :
  (length [0%nat] <= 1)%nat /\
  get_alternative_routes (fun _ l => l) (fun _ => 1.25) sample_heap
    [0%nat] 2 = Ok [].
Proof.
  assert (H : (length [0%nat] <= 1)%nat) by (simpl; lia).
  split; [exact H |].
  apply (get_alternative_routes_needs_two_bins (fun _ l => l)
           (fun _ => 1.25) sample_heap [0%nat] 2 H).
Defined.

(** X17.  For two or more bins, none at distance zero from the depot,
    [get_alternative_routes] returns exactly as many alternatives as
    asked for (none for a count that is not positive); the [i]-th one is
    named [alt_<i+1>], visits every bin of the input exactly as often as
    the input lists it, whatever order the shuffle produced, and carries
    no efficiency score. *)
Theorem get_alternative_routes_are_permutations
  (shuffle : nat -> list loc -> list loc) (us : nat -> R) (h : heap)
  (bins : list loc) (num_alternatives : Z) :
  (1 < length bins)%nat ->
  (forall i l, Permutation (shuffle i l) l) ->
  (forall j, us j <> 0) ->
  off_depot h bins ->
  exists alternatives,
    get_alternative_routes shuffle us h bins num_alternatives
    = Ok alternatives /\
    length alternatives = Z.to_nat num_alternatives /\
    Forall2 (alternative_of bins) alternatives
            (seq 0 (Z.to_nat num_alternatives)).
Proof.
  intros Hl Hsh Hus Hoff. unfold get_alternative_routes.
  destruct (alternatives_loop_ok shuffle us h bins
              (seq 0 (Z.to_nat num_alternatives)) Hl Hsh Hus Hoff [])
    as (new & El & Ef).
  exists new. split; [exact El |]. split; [| exact Ef].
  rewrite (Forall2_length Ef). apply length_seq.
Qed.

Lemma get_alternative_routes_are_permutations_witness :
  (1 < length [2%nat; 3%nat])%nat /\
  (forall (i : nat) (l : list nat), Permutation ((fun _ l => rev l) i l) l) /\
  (forall j : nat, (fun _ : nat => 1.25) j <> 0) /\
  off_depot sample_heap [2%nat; 3%nat] /\
  exists alternatives,
    get_alternative_routes (fun _ l => rev l) (fun _ => 1.25) sample_heap
      [2%nat; 3%nat] 2 = Ok alternatives /\
    length alternatives = Z.to_nat 2.
Proof.
  assert (H1 : (1 < length [2%nat; 3%nat])%nat) by (simpl; lia).
  assert (H2 : forall (i : nat) (l : list nat),
                 Permutation ((fun _ l => rev l) i l) l).
  { intros i l. apply Permutation_sym. apply Permutation_rev. }
  assert (H3 : forall j : nat, (fun _ : nat => 1.25) j <> 0)
    by (intros j; lra).
  assert (H4 : off_depot sample_heap [2%nat; 3%nat]).
  { apply off_depot_near. intros b Hb. simpl in Hb. lia. }
  split; [exact H1 |]. split; [exact H2 |]. split; [exact H3 |].
  split; [exact H4 |].
  destruct (get_alternative_routes_are_permutations (fun _ l => rev l)
              (fun _ => 1.25) sample_heap [2%nat; 3%nat] 2 H1 H2 H3 H4)
    as (alts & E & Hlen & _).
  exists alts. split; [exact E | exact Hlen].
Defined.

(** ** The route buttons of the dashboards *)

Lemma count_occ_filter_true (f : nat -> bool) (L : list nat) (l : nat) :
  f l = true ->
  count_occ Nat.eq_dec (filter f L) l = count_occ Nat.eq_dec L l.
Proof.
  intros Hf. induction L as [| x L IH]; simpl.
  - reflexivity.
  - destruct (f x) eqn:Efx; simpl.
    + destruct (Nat.eq_dec x l); rewrite IH; reflexivity.
    + destruct (Nat.eq_dec x l) as [-> | Hne]; [congruence | exact IH].
Qed.

(** X18.  The route button of the dashboards routes exactly the bins of
    [bins_data] whose fill level is at least 80.  When every bin is
    below 80 it computes nothing and stores nothing; when some bin is at
    80 or more it stores a route or raises.  A route it stores has as
    stops the bins of [bins_data] at 80 or more and no other, each as
    often as [bins_data] lists it, and [number_of_stops] is the number
    of stops.  Whatever the outcome, the record of a bin below 80 is
    left as it was. *)
Theorem generate_route_serves_full_bins (now u : R) (h : heap)
  (bins_data : list loc) :
  ((forall l, In l bins_data -> (Bin.fill_level (h l) < 80)%Z) ->
   generate_route now u h bins_data = (h, Ok None)) /\
  ((exists l, In l bins_data /\ (80 <= Bin.fill_level (h l))%Z) ->
   snd (generate_route now u h bins_data) <> Ok None) /\
  (forall h' r,
     generate_route now u h bins_data = (h', Ok (Some r)) ->
     (forall l, In l (Route.stops r) <->
                In l bins_data /\ (80 <= Bin.fill_level (h l))%Z) /\
     (forall l, (80 <= Bin.fill_level (h l))%Z ->
        count_occ Nat.eq_dec (Route.stops r) l
        = count_occ Nat.eq_dec bins_data l) /\
     Route.number_of_stops r = Some (Z.of_nat (length (Route.stops r)))) /\
  (forall l, (Bin.fill_level (h l) < 80)%Z ->
     fst (generate_route now u h bins_data) l = h l).
Proof.
  unfold generate_route.
  assert (Hfull : forall l, In l (bins_needing_collection h bins_data) <->
            In l bins_data /\ (80 <= Bin.fill_level (h l))%Z).
  { intros l. unfold bins_needing_collection. rewrite filter_In.
    rewrite Z.leb_le. reflexivity. }
  assert (Hcount : forall l, (80 <= Bin.fill_level (h l))%Z ->
            count_occ Nat.eq_dec (bins_needing_collection h bins_data) l
            = count_occ Nat.eq_dec bins_data l).
  { intros l Hl. unfold bins_needing_collection.
    apply count_occ_filter_true. apply Z.leb_le. exact Hl. }
  set (full := bins_needing_collection h bins_data) in *.
  split; [| split; [| split]].
  - intros Hlow. destruct full as [| b full']; [reflexivity |].
    exfalso. destruct (proj1 (Hfull b) (or_introl eq_refl)) as [Hin Hb].
    specialize (Hlow b Hin). lia.
  - intros (l & Hin & Hl).
    destruct full as [| b full'].
    + exfalso. apply (proj2 (Hfull l)). split; assumption.
    + destruct (calculate_optimal_route now u h (b :: full'))
        as [h1 [m | e]]; simpl; discriminate.
  - intros h' r Hg.
    destruct full as [| b full'] eqn:Efull; [discriminate |].
    destruct (calculate_optimal_route now u h (b :: full'))
      as [h1 [m | e]] eqn:Ec; [| discriminate].
    injection Hg as <- <-.
    destruct (calculate_optimal_route_Ok_inv now u h h1 (b :: full') m)
      as (rm & t & Erm & _ & -> & _); [discriminate | exact Ec |].
    assert (Hr : nearest_neighbor_algorithm h (b :: full') <> [])
      by (apply nearest_neighbor_nonempty; discriminate).
    destruct (calculate_route_metrics_Ok_inv u h _ rm Hr Erm)
      as (_ & _ & _ & _ & _ & Es & _).
    pose proof (nearest_neighbor_perm h (b :: full')) as P.
    simpl Route.stops. simpl Route.number_of_stops. rewrite Es.
    split; [| split].
    + intros l. rewrite <- Hfull. split; intros Hl.
      * eapply Permutation_in; [exact P | exact Hl].
      * eapply Permutation_in; [apply Permutation_sym; exact P | exact Hl].
    + intros l Hl. rewrite <- (Hcount l Hl).
      apply (proj1 (Permutation_count_occ Nat.eq_dec _ _) P).
    + rewrite (Permutation_length P). reflexivity.
  - intros l Hlow.
    assert (Hnot : ~ In l full).
    { intros Hl. apply Hfull in Hl. lia. }
    destruct full as [| b full'] eqn:Efull; [reflexivity |].
    destruct (calculate_optimal_route_frame now u h (b :: full') l)
      as [_ F].
    destruct (calculate_optimal_route now u h (b :: full'))
      as [h1 [m | e]]; simpl in F |- *; apply F; exact Hnot.
Qed.

(** ** The environmental figures *)

(** X19.  For a route whose distance is not negative and whose fuel
    savings lie between 0 and 100 percent, no figure of the
    environmental estimate is negative, the fuel saved is at most the
    fuel consumed, the CO2 saved at most the CO2 emitted, and each CO2
    figure is at least the fuel figure it is computed from. *)
Theorem environmental_impact_figures (rm : Route.t) :
  0 <= Route.total_distance rm ->
  0 <= Route.fuel_savings rm <= 100 ->
  0 <= fuel_saved_liters (calculate_environmental_impact rm)
    <= fuel_consumed_liters (calculate_environmental_impact rm) /\
  0 <= co2_saved_kg (calculate_environmental_impact rm)
    <= co2_emitted_kg (calculate_environmental_impact rm) /\
  fuel_consumed_liters (calculate_environmental_impact rm)
    <= co2_emitted_kg (calculate_environmental_impact rm) /\
  fuel_saved_liters (calculate_environmental_impact rm)
    <= co2_saved_kg (calculate_environmental_impact rm).
Proof.
  intros Hd Hf. unfold calculate_environmental_impact. simpl.
  set (d := Route.total_distance rm) in *.
  set (f := Route.fuel_savings rm) in *.
  assert (Hc : 0 <= d * 0.35) by nra.
  assert (Hs : 0 <= d * 0.35 * (f / 100) <= d * 0.35) by (split; nra).
  repeat split.
  - apply py_round2_nonneg. lra.
  - apply py_round2_mono. lra.
  - apply py_round2_nonneg. nra.
  - apply py_round2_mono. nra.
  - apply py_round2_mono. nra.
  - apply py_round2_mono. nra.
Qed.

Lemma environmental_impact_figures_witness :
  0 <= Route.total_distance sample_route /\
  0 <= Route.fuel_savings sample_route <= 100 /\
  fuel_saved_liters (calculate_environmental_impact sample_route)
  <= fuel_consumed_liters (calculate_environmental_impact sample_route).
Proof.
  assert (H1 : 0 <= Route.total_distance sample_route) by (simpl; lra).
  assert (H2 : 0 <= Route.fuel_savings sample_route <= 100) by (simpl; lra).
  split; [exact H1 |]. split; [exact H2 |].
  apply (environmental_impact_figures sample_route H1 H2).
Defined.

(** ** When the allocation raises *)

Lemma regular_same_coordinates (h h' : heap) (bins : list loc) :
  same_coordinates h h' ->
  (forall b, In b bins -> regular_geopoint (Bin.coordinates (h b))) ->
  forall b, In b bins -> regular_geopoint (Bin.coordinates (h' b)).
Proof.
  intros Hc Hreg b Hb. rewrite <- (Hc b). apply Hreg. exact Hb.
Qed.

Lemma all_on_depot_same_coordinates (h h' : heap) (bins : list loc) :
  same_coordinates h h' -> (all_on_depot h bins <-> all_on_depot h' bins).
Proof.
  intros Hc. unfold all_on_depot.
  split; intros H b Hb; specialize (H b Hb); [rewrite <- (Hc b) | rewrite (Hc b)];
    exact H.
Qed.

(** For regular coordinates, a non-empty list either is all on the depot
    and raises, or is not and gets its route. *)
Lemma calculate_optimal_route_cases (now u : R) (h : heap) (bins : list loc) :
  bins <> [] -> u <> 0 ->
  (forall b, In b bins -> regular_geopoint (Bin.coordinates (h b))) ->
  (all_on_depot h bins /\
   calculate_optimal_route now u h bins = (h, Raise ZeroDivisionError)) \/
  (~ all_on_depot h bins /\
   exists h' m,
     calculate_optimal_route now u h bins = (h', Ok m) /\
     same_coordinates h h').
Proof.
  intros Hne Hu Hreg.
  pose proof (nearest_neighbor_perm h bins) as P.
  assert (Hreg' : forall b, In b (nearest_neighbor_algorithm h bins) ->
                            regular_geopoint (Bin.coordinates (h b))).
  { intros b Hb. apply Hreg. eapply Permutation_in; [exact P | exact Hb]. }
  pose proof (closed_walk_zero_iff h _ Hreg') as Hiff.
  destruct (Req_dec_T
              (closed_walk_length h (nearest_neighbor_algorithm h bins)) 0)
    as [Hz | Hnz].
  - left. split.
    + eapply all_on_depot_perm; [exact P | apply Hiff; exact Hz].
    + apply calculate_optimal_route_raise; assumption.
  - right. split.
    + intros Hall. apply Hnz. apply Hiff.
      eapply all_on_depot_perm; [apply Permutation_sym; exact P | exact Hall].
    + destruct (calculate_optimal_route_ok now u h bins Hne Hu Hnz)
        as (rm & t & _ & _ & _ & E).
      eexists. eexists. split; [exact E |].
      apply annotate_stops_same_coordinates.
Qed.

Lemma truck_loop_cases (now : R) (us : nat -> R) (h0 : heap)
  (bins : list loc) (n k : nat) (ids : list nat) :
  (forall j, us j <> 0) ->
  (forall b, In b bins -> regular_geopoint (Bin.coordinates (h0 b))) ->
  forall (h : heap) (routes : list Route.t),
    same_coordinates h0 h ->
    ((exists i, In i ids /\ truck_bins_of bins n k i <> [] /\
                all_on_depot h0 (truck_bins_of bins n k i)) ->
     exists h',
       truck_loop now us bins n k ids h routes
       = (h', Raise ZeroDivisionError)) /\
    (~ (exists i, In i ids /\ truck_bins_of bins n k i <> [] /\
                  all_on_depot h0 (truck_bins_of bins n k i)) ->
     exists h' plans,
       truck_loop now us bins n k ids h routes = (h', Ok plans)).
Proof.
  intros Hus Hreg. induction ids as [| i ids IH]; intros h routes Hc.
  - split.
    + intros (i & [] & _).
    + intros _. exists h, routes. reflexivity.
  - simpl truck_loop.
    destruct (truck_bins_of bins n k i) as [| b tb] eqn:Etb.
    + destruct (IH h routes Hc) as [IA IB]. split.
      * intros (i' & [-> | Hi'] & Hne & Hall).
        -- rewrite Etb in Hne. congruence.
        -- apply IA. exists i'. auto.
      * intros Hnot. apply IB. intros (i' & Hi' & Hne & Hall).
        apply Hnot. exists i'. split; [right; exact Hi' | auto].
    + assert (Hsub : forall x, In x (b :: tb) -> In x bins).
      { intros x Hx. apply (In_truck_bins_of bins n k i). rewrite Etb.
        exact Hx. }
      destruct (calculate_optimal_route_cases now (us (length routes)) h
                  (b :: tb)) as [[Hall E] | (Hnall & h1 & m & E & Hc1)].
      * discriminate.
      * apply Hus.
      * intros x Hx. rewrite <- (Hc x). apply Hreg. apply Hsub. exact Hx.
      * rewrite E. split.
        -- intros _. exists h. reflexivity.
        -- intros Hnot. exfalso. apply Hnot. exists i.
           split; [left; reflexivity |]. rewrite Etb.
           split; [discriminate |].
           apply (all_on_depot_same_coordinates h0 h (b :: tb) Hc).
           exact Hall.
      * rewrite E.
        assert (Hc' : same_coordinates h0 h1).
        { intros l. rewrite (Hc l). apply Hc1. }
        destruct (IH h1 (routes ++ [add_truck i m]) Hc') as [IA IB].
        split.
        -- intros (i' & [<- | Hi'] & Hne & Hall).
           ++ exfalso. apply Hnall. rewrite Etb in Hall.
              apply (all_on_depot_same_coordinates h0 h (b :: tb) Hc).
              exact Hall.
           ++ apply IA. exists i'. auto.
        -- intros Hnot. apply IB. intros (i' & Hi' & Hne & Hall).
           apply Hnot. exists i'. split; [right; exact Hi' | auto].
Qed.

(** X21.  For a non-empty list of bins with regular coordinates and
    [num_trucks > 0], the allocation raises [ZeroDivisionError] when some
    truck receives bins that all stand on the depot, and returns its
    plans when no truck does. *)
Theorem allocation_raises_iff_truck_on_depot (now : R) (us : nat -> R)
  (h : heap) (bins : list loc) (num_trucks : Z) :
  bins <> [] ->
  (0 < num_trucks)%Z ->
  (forall j, us j <> 0) ->
  (forall b, In b bins -> regular_geopoint (Bin.coordinates (h b))) ->
  ((exists i, (i < Z.to_nat num_trucks)%nat /\
      truck_bins_of bins (Z.to_nat num_trucks)
        (length bins / Z.to_nat num_trucks) i <> [] /\
      all_on_depot h
        (truck_bins_of bins (Z.to_nat num_trucks)
           (length bins / Z.to_nat num_trucks) i)) ->
   exists h',
     optimize_multi_truck_routes now us h bins num_trucks
     = (h', Raise ZeroDivisionError)) /\
  (~ (exists i, (i < Z.to_nat num_trucks)%nat /\
        truck_bins_of bins (Z.to_nat num_trucks)
          (length bins / Z.to_nat num_trucks) i <> [] /\
        all_on_depot h
          (truck_bins_of bins (Z.to_nat num_trucks)
             (length bins / Z.to_nat num_trucks) i)) ->
   exists h' plans,
     optimize_multi_truck_routes now us h bins num_trucks = (h', Ok plans)).
Proof.
  intros Hne Hn Hus Hreg. unfold optimize_multi_truck_routes.
  destruct bins as [| b0 bins0] eqn:Eb; [congruence |]. rewrite <- Eb in *.
  destruct (Z.leb_spec num_trucks 0); [lia |].
  rewrite bins_per_truck_nat by lia.
  set (n := Z.to_nat num_trucks). set (k := (length bins / n)%nat).
  destruct (truck_loop_cases now us h bins n k (seq 0 n) Hus Hreg h []
              (fun l => eq_refl)) as [A B].
  split.
  - intros (i & Hi & Hne' & Hall). apply A. exists i.
    split; [apply in_seq; lia | auto].
  - intros Hnot. apply B. intros (i & Hi & Hne' & Hall).
    apply Hnot. exists i. apply in_seq in Hi. split; [lia | auto].
Qed.

Lemma allocation_raises_iff_truck_on_depot_witness :
  [2%nat; 0%nat] <> [] /\ (0 < 2)%Z /\
  (forall j : nat, (fun _ : nat => 1.25) j <> 0) /\
  (forall b, In b [2%nat; 0%nat] ->
     regular_geopoint (Bin.coordinates (sample_heap b))) /\
  exists h',
    optimize_multi_truck_routes 0 (fun _ => 1.25) sample_heap
      [2%nat; 0%nat] 2 = (h', Raise ZeroDivisionError).
Proof.
  assert (H1 : [2%nat; 0%nat] <> []) by discriminate.
  assert (H2 : (0 < 2)%Z) by lia.
  assert (H3 : forall j : nat, (fun _ : nat => 1.25) j <> 0)
    by (intros j; lra).
  assert (H4 : forall b, In b [2%nat; 0%nat] ->
                 regular_geopoint (Bin.coordinates (sample_heap b))).
  { intros b [<- | [<- | []]]; unfold regular_geopoint; simpl; lra. }
  split; [exact H1 |]. split; [exact H2 |]. split; [exact H3 |].
  split; [exact H4 |].
  apply (proj1 (allocation_raises_iff_truck_on_depot 0 (fun _ => 1.25)
                  sample_heap [2%nat; 0%nat] 2 H1 H2 H3 H4)).
  exists 1%nat. split; [simpl; lia |]. split; [discriminate |].
  intros b [<- | []]. reflexivity.
Defined.
